(** * REV-address utilities of rnode-grpc-js: a shallow embedding

    The TypeScript module [src/rev-address.ts] turns key material into RChain
    REV addresses along the one-way chain

      mnemonic -> private key -> public key -> ETH address -> REV address

    and recognises what kind of text a caller passed in.  This file embeds
    the module function by function and proves properties of it.

    Layout:
    - [JS]         the JavaScript string and array primitives the module uses;
    - [Codecs]     the base16 and base58 codecs it imports from [./codecs];
    - [Blake2b], [Keccak], [Secp256k1]
                   the algorithms behind the packages [blakejs], [js-sha3]
                   and [elliptic];
    - the interfaces of the imported packages as type classes;
    - the embedding of [rev-address.ts] itself;
    - what the module relies on in the packages, and the vocabulary of the
      properties;
    - the properties: general lemmas, the claims C1 to C10 for every
      implementation of the packages, and the claims run on concrete
      inputs. *)

From Stdlib Require Import NArith ZArith List Bool Lia.
From Stdlib.Strings Require Import String Ascii Byte.
Import ListNotations.

Local Open Scope string_scope.

(* ------------------------------------------------------------------------- *)
(** * JavaScript primitives *)

(** Strings are sequences of code units below 256 (Latin-1), which is all the
    module's inputs and outputs need: hexadecimal text, base58 text and
    English mnemonic words. *)
Module JS.

(** [s.replace(/^0x/, '')]: one leading ["0x"] (lower-case x) is removed. *)
Definition strip0x (s : string) : string :=
  match s with
  | String "0" (String "x" rest) => rest
  | _ => s
  end.

(** Whether [s] starts with ["0x"]. *)
Definition has0x (s : string) : bool :=
  match s with
  | String "0" (String "x" _) => true
  | _ => false
  end.

(** ECMAScript WhiteSpace and LineTerminator code units below 256: TAB, LF,
    VT, FF, CR, SP and NBSP. *)
Definition isWhiteSpace (c : ascii) : bool :=
  let n := N_of_ascii c in
  ((9 <=? n) && (n <=? 13) || (n =? 32) || (n =? 160))%N.

Fixpoint dropWhile {A} (p : A -> bool) (l : list A) : list A :=
  match l with
  | [] => []
  | x :: l' => if p x then dropWhile p l' else l
  end.

(** [s.trim()] *)
Definition trim (s : string) : string :=
  let front := dropWhile isWhiteSpace (list_ascii_of_string s) in
  string_of_list_ascii (rev (dropWhile isWhiteSpace (rev front))).

(** The relative index of [slice]: a negative index counts from the end, and
    every index is clamped to [0 .. len]. *)
Definition relIndex (len i : Z) : Z :=
  if (i <? 0)%Z then Z.max (len + i) 0 else Z.min i len.

(** [a.slice(start, end)] on arrays; [end] is [None] when the argument is
    left out. *)
Definition slice {A} (l : list A) (start : Z) (end_ : option Z) : list A :=
  let len := Z.of_nat (List.length l) in
  let from := relIndex len start in
  let to := match end_ with Some e => relIndex len e | None => len end in
  firstn (Z.to_nat (to - from)) (skipn (Z.to_nat from) l).

(** [s.slice(start, end)] on strings. *)
Definition sliceString (s : string) (start : Z) (end_ : option Z) : string :=
  string_of_list_ascii (slice (list_ascii_of_string s) start end_).

(** Truthiness of a string value: the empty string is falsy. *)
Definition truthy (s : string) : bool :=
  match s with EmptyString => false | String _ _ => true end.

(** Completion of a call that may [throw new Error(message)]. *)
Inductive completion (A : Type) : Type :=
| Normal (value : A)
| Throw (message : string).

Arguments Normal {A} value.
Arguments Throw {A} message.

End JS.

(* ------------------------------------------------------------------------- *)
(** * Codecs *)

(** The module imports [decodeBase16], [encodeBase16], [encodeBase58] and
    [decodeBase58safe] from [./codecs].  That file is not among the sources
    at hand; the four functions are modelled from the specification, which
    names them base16 (hex, lower-case) and base58 codecs, and from the
    package manifest, which names [bs58]: base58 with the Bitcoin alphabet. *)
Module Codecs.

(** ** Base 16 *)

Definition hexDigit (n : N) : ascii :=
  if (n <? 10)%N then ascii_of_N (48 + n) else ascii_of_N (87 + n).

(** The value of a hexadecimal digit, either case. *)
Definition hexValue (c : ascii) : option N :=
  let n := N_of_ascii c in
  if ((48 <=? n) && (n <=? 57))%N then Some (n - 48)%N
  else if ((97 <=? n) && (n <=? 102))%N then Some (n - 87)%N
  else if ((65 <=? n) && (n <=? 70))%N then Some (n - 55)%N
  else None.

(** A digit as [encodeBase16] writes it: [0-9a-f]. *)
Definition isLowerHexDigit (c : ascii) : bool :=
  let n := N_of_ascii c in
  ((48 <=? n) && (n <=? 57) || (97 <=? n) && (n <=? 102))%N.

Definition byteOfN (n : N) : byte :=
  match Byte.of_N (n mod 256) with Some b => b | None => x00 end.

Definition hexOfByte (b : byte) : list ascii :=
  let n := Byte.to_N b in [hexDigit (n / 16); hexDigit (n mod 16)].

(** Modelled from the spec: [encodeBase16] of [./codecs], which is not among
    the sources at hand.  Hex text is lower-case with two digits per byte. *)
Definition encodeBase16 (bytes : list byte) : string :=
  string_of_list_ascii (flat_map hexOfByte bytes).

Definition nibble (c : ascii) : N :=
  match hexValue c with Some v => v | None => 0%N end.

Fixpoint decodePairs (l : list ascii) : list byte :=
  match l with
  | hi :: lo :: rest => byteOfN (16 * nibble hi + nibble lo) :: decodePairs rest
  | _ => []
  end.

(** Modelled from the spec: [decodeBase16] of [./codecs], which is not among
    the sources at hand.  Each pair of hexadecimal digits gives one byte.  The
    spec is silent on text that is not hexadecimal; here a character that is
    no hex digit counts as 0 and an odd last character is dropped, and no
    property below rests on that choice. *)
Definition decodeBase16 (hexStr : string) : list byte :=
  decodePairs (list_ascii_of_string hexStr).

(** The number that hexadecimal text denotes, most significant digit first. *)
Definition hexNumber (s : string) : Z :=
  fold_left (fun acc c => (16 * acc + Z.of_N (nibble c))%Z)
            (list_ascii_of_string s) 0%Z.

Definition isHexDigit (c : ascii) : bool :=
  match hexValue c with Some _ => true | None => false end.

(** Hexadecimal text, either case. *)
Definition isHex (s : string) : bool :=
  forallb isHexDigit (list_ascii_of_string s).

(** ** Base 58 *)

Definition alphabet : string :=
  "123456789ABCDEFGHJKLMNPQRSTUVWXYZabcdefghijkmnopqrstuvwxyz".

(** Little-endian digits of [n] in base [b]; [fuel] bounds the number of
    digits. *)
Fixpoint toDigits (fuel : nat) (b n : N) : list N :=
  match fuel with
  | O => []
  | S fuel' => if (n =? 0)%N then [] else (n mod b)%N :: toDigits fuel' b (n / b)
  end.

Fixpoint ofDigits (b : N) (ds : list N) : N :=
  match ds with
  | [] => 0
  | d :: ds' => d + b * ofDigits b ds'
  end.

(** The number of binary digits of [n]: enough fuel for any base above 1. *)
Definition bits (n : N) : nat := N.to_nat (N.size n).

Definition digitsOf (b n : N) : list N := toDigits (bits n) b n.

Fixpoint countLeading {A} (p : A -> bool) (l : list A) : nat :=
  match l with
  | x :: l' => if p x then S (countLeading p l') else O
  | [] => O
  end.

Definition isZero (d : N) : bool := (d =? 0)%N.

(** Little-endian digits in normal form: the most significant digit, which
    comes last, is not zero. *)
Fixpoint normal (ds : list N) : Prop :=
  match ds with
  | [] => True
  | d :: ds' => match ds' with [] => d <> 0%N | _ :: _ => normal ds' end
  end.

(** Big-endian digits that do not start with a zero digit. *)
Definition headNonZero (ds : list N) : Prop :=
  match ds with [] => True | d :: _ => d <> 0%N end.

(** Big-endian digits of base [from] rewritten in base [to]: every leading
    zero digit stays one leading zero digit, the rest is converted as a
    number.  This is the conversion of the [base-x] package behind [bs58]. *)
Definition convert (from to : N) (ds : list N) : list N :=
  (repeat 0%N (countLeading isZero ds)
   ++ rev (digitsOf to (ofDigits from (rev ds))))%list.

Definition symbol (d : N) : ascii :=
  match String.get (N.to_nat d) alphabet with Some c => c | None => "1"%char end.

Fixpoint indexOf (c : ascii) (s : string) : option N :=
  match s with
  | EmptyString => None
  | String c' s' =>
      if Ascii.eqb c c' then Some 0%N else option_map N.succ (indexOf c s')
  end.

Definition digit (c : ascii) : option N := indexOf c alphabet.

Fixpoint digits (l : list ascii) : option (list N) :=
  match l with
  | [] => Some []
  | c :: l' =>
      match digit c, digits l' with
      | Some d, Some ds => Some (d :: ds)
      | _, _ => None
      end
  end.

(** [bs58.encode(bytes)]: a leading zero byte gives a leading ['1']. *)
Definition bs58_encode (bytes : list byte) : string :=
  string_of_list_ascii (map symbol (convert 256 58 (map Byte.to_N bytes))).

(** [bs58.decode(str)]; [None] when a character is outside the alphabet,
    where the package throws. *)
Definition bs58_decode (str : string) : option (list byte) :=
  match digits (list_ascii_of_string str) with
  | None => None
  | Some ds => Some (map byteOfN (convert 58 256 ds))
  end.

(** Modelled from the spec: [encodeBase58] of [./codecs], which is not among
    the sources at hand.  It takes the bytes as hex text. *)
Definition encodeBase58 (hexStr : string) : string :=
  bs58_encode (decodeBase16 hexStr).

(** Modelled from the spec: [decodeBase58safe] of [./codecs], which is not
    among the sources at hand.  A decoding failure is an absent result. *)
Definition decodeBase58safe (str : string) : option (list byte) :=
  bs58_decode str.

End Codecs.

(* ------------------------------------------------------------------------- *)
(** * Blake2b *)

(** The hash function of RFC 7693 in the streaming form of the [blakejs]
    package ([blake2bInit], [blake2bUpdate], [blake2bFinal]).  Words are 64-bit
    unsigned integers, held as [N] and reduced modulo [2^64]. *)
Module Blake2b.

Definition w64 (x : N) : N := N.land x 18446744073709551615.

Definition rotr64 (x r : N) : N :=
  N.lor (N.shiftr x r) (w64 (N.shiftl x (64 - r))).

Definition IV : list N :=
  [ 7640891576956012808; 13503953896175478587;
    4354685564936845355; 11912009170470909681;
    5840696475078001361; 11170449401992604703;
    2270897969802886507; 6620516959819538809 ]%N.

Definition SIGMA : list (list nat) :=
  [ [0; 1; 2; 3; 4; 5; 6; 7; 8; 9; 10; 11; 12; 13; 14; 15];
    [14; 10; 4; 8; 9; 15; 13; 6; 1; 12; 0; 2; 11; 7; 5; 3];
    [11; 8; 12; 0; 5; 2; 15; 13; 10; 14; 3; 6; 7; 1; 9; 4];
    [7; 9; 3; 1; 13; 12; 11; 14; 2; 6; 5; 10; 4; 0; 15; 8];
    [9; 0; 5; 7; 2; 4; 10; 15; 14; 1; 11; 12; 6; 8; 3; 13];
    [2; 12; 6; 10; 0; 11; 8; 3; 4; 13; 7; 5; 15; 14; 1; 9];
    [12; 5; 1; 15; 14; 13; 4; 10; 0; 7; 6; 3; 9; 2; 8; 11];
    [13; 11; 7; 14; 12; 1; 3; 9; 5; 0; 15; 4; 8; 6; 2; 10];
    [6; 15; 14; 9; 11; 3; 0; 8; 12; 2; 13; 7; 1; 4; 10; 5];
    [10; 2; 8; 4; 7; 6; 1; 5; 15; 11; 9; 14; 3; 12; 13; 0];
    [0; 1; 2; 3; 4; 5; 6; 7; 8; 9; 10; 11; 12; 13; 14; 15];
    [14; 10; 4; 8; 9; 15; 13; 6; 1; 12; 0; 2; 11; 7; 5; 3] ].

Definition word (v : list N) (i : nat) : N := nth i v 0%N.

Fixpoint setWord (v : list N) (i : nat) (x : N) : list N :=
  match v, i with
  | [], _ => []
  | _ :: v', O => x :: v'
  | y :: v', S i' => y :: setWord v' i' x
  end.

(** The mixing function G on the working vector [v]. *)
Definition G (v : list N) (a b c d : nat) (x y : N) : list N :=
  let v := setWord v a (w64 (word v a + word v b + x)) in
  let v := setWord v d (rotr64 (N.lxor (word v d) (word v a)) 32) in
  let v := setWord v c (w64 (word v c + word v d)) in
  let v := setWord v b (rotr64 (N.lxor (word v b) (word v c)) 24) in
  let v := setWord v a (w64 (word v a + word v b + y)) in
  let v := setWord v d (rotr64 (N.lxor (word v d) (word v a)) 16) in
  let v := setWord v c (w64 (word v c + word v d)) in
  setWord v b (rotr64 (N.lxor (word v b) (word v c)) 63).

Definition round (m : list N) (v : list N) (s : list nat) : list N :=
  let mw i := word m (nth i s O) in
  let v := G v 0 4 8 12 (mw 0%nat) (mw 1%nat) in
  let v := G v 1 5 9 13 (mw 2%nat) (mw 3%nat) in
  let v := G v 2 6 10 14 (mw 4%nat) (mw 5%nat) in
  let v := G v 3 7 11 15 (mw 6%nat) (mw 7%nat) in
  let v := G v 0 5 10 15 (mw 8%nat) (mw 9%nat) in
  let v := G v 1 6 11 12 (mw 10%nat) (mw 11%nat) in
  let v := G v 2 7 8 13 (mw 12%nat) (mw 13%nat) in
  G v 3 4 9 14 (mw 14%nat) (mw 15%nat).

(** A little-endian word of eight bytes. *)
Definition wordOfBytes (bs : list byte) : N :=
  fold_right (fun b acc => (Byte.to_N b + 256 * acc)%N) 0%N bs.

Definition blockWords (block : list byte) : list N :=
  map (fun i => wordOfBytes (firstn 8 (skipn (8 * i) block))) (seq 0 16).

(** The compression function F: [h] the chained state, [block] 128 bytes,
    [t] the byte counter, [last] the final-block flag. *)
Definition compress (h : list N) (block : list byte) (t : N) (last : bool)
  : list N :=
  let m := blockWords block in
  let v := (h ++ IV)%list in
  let v := setWord v 12 (N.lxor (word v 12) (w64 t)) in
  let v := setWord v 13 (N.lxor (word v 13) (w64 (N.shiftr t 64))) in
  let v := if last then setWord v 14 (N.lxor (word v 14) 18446744073709551615)
           else v in
  let v := fold_left (round m) SIGMA v in
  map (fun i => N.lxor (word h i) (N.lxor (word v i) (word v (i + 8))))
      (seq 0 8).

(** The hashing context: chained state [h], buffered bytes [b] and the counter
    [t] of the bytes compressed so far. *)
Record ctx : Type := { h : list N; b : list byte; t : N }.

Definition padBlock (bs : list byte) : list byte :=
  (bs ++ repeat x00 (128 - List.length bs))%list.

Definition update1 (c : ctx) (x : byte) : ctx :=
  if (List.length (b c) =? 128)%nat then
    let t' := (t c + 128)%N in
    {| h := compress (h c) (b c) t' false; b := [x]; t := t' |}
  else {| h := h c; b := (b c ++ [x])%list; t := t c |}.

Definition blake2bUpdate (c : ctx) (input : list byte) : ctx :=
  fold_left update1 input c.

Definition blake2bInit (outlen : nat) (key : option (list byte)) : ctx :=
  let keylen := match key with Some k => List.length k | None => O end in
  let p := (16842752 + 256 * N.of_nat keylen + N.of_nat outlen)%N in
  let c := {| h := setWord IV 0 (N.lxor (word IV 0) p); b := []; t := 0 |} in
  match key with
  | Some k =>
      let c := blake2bUpdate c k in
      {| h := h c; b := padBlock (b c); t := t c |}
  | None => c
  end.

Definition outByte (hs : list N) (i : nat) : byte :=
  Codecs.byteOfN (N.shiftr (word hs (i / 8)) (8 * N.of_nat (i mod 8))).

Definition blake2bFinal (outlen : nat) (c : ctx) : list byte :=
  let t' := (t c + N.of_nat (List.length (b c)))%N in
  let hs := compress (h c) (padBlock (b c)) t' true in
  map (outByte hs) (seq 0 outlen).

(** [blake2b(input, key, outlen)] *)
Definition blake2b (input : list byte) (key : option (list byte))
    (outlen : nat) : list byte :=
  blake2bFinal outlen (blake2bUpdate (blake2bInit outlen key) input).

End Blake2b.

(* ------------------------------------------------------------------------- *)
(** * Keccak-256 *)

(** The Keccak sponge with rate 136 bytes and the original padding (domain
    byte 0x01), which is what [js-sha3] exports as [keccak256]. *)
Module Keccak.

Definition rotl64 (x : N) (r : N) : N :=
  Blake2b.w64 (N.lor (N.shiftl x r) (N.shiftr x (64 - r))).

(** Lane [(x, y)] of a state of 25 lanes, indices taken modulo 5. *)
Definition lane (a : list N) (x y : nat) : N :=
  nth (x mod 5 + 5 * (y mod 5)) a 0%N.

Definition RC : list N :=
  [ 0x0000000000000001; 0x0000000000008082; 0x800000000000808A;
    0x8000000080008000; 0x000000000000808B; 0x0000000080000001;
    0x8000000080008081; 0x8000000000008009; 0x000000000000008A;
    0x0000000000000088; 0x0000000080008009; 0x000000008000000A;
    0x000000008000808B; 0x800000000000008B; 0x8000000000008089;
    0x8000000000008003; 0x8000000000008002; 0x8000000000000080;
    0x000000000000800A; 0x800000008000000A; 0x8000000080008081;
    0x8000000000008080; 0x0000000080000001; 0x8000000080008008 ]%N.

(** Rotation offsets, indexed like the lanes. *)
Definition offsets : list N :=
  [ 0; 1; 62; 28; 27;
    36; 44; 6; 55; 20;
    3; 10; 43; 25; 39;
    41; 45; 15; 21; 8;
    18; 2; 61; 56; 14 ]%N.

Definition theta (a : list N) : list N :=
  let c x := N.lxor (lane a x 0) (N.lxor (lane a x 1) (N.lxor (lane a x 2)
               (N.lxor (lane a x 3) (lane a x 4)))) in
  let cs := map c (seq 0 5) in
  let d x := N.lxor (nth ((x + 4) mod 5) cs 0%N)
                    (rotl64 (nth ((x + 1) mod 5) cs 0%N) 1) in
  let ds := map d (seq 0 5) in
  map (fun i => N.lxor (nth i a 0%N) (nth (i mod 5) ds 0%N)) (seq 0 25).

(** rho and pi together: lane [(x, y)] moves to [(y, 2x + 3y)], rotated. *)
Definition rhoPi (a : list N) : list N :=
  map (fun i =>
         let X := (i mod 5)%nat in
         let Y := (i / 5)%nat in
         let x := ((X + 3 * Y) mod 5)%nat in
         rotl64 (lane a x X) (nth (x + 5 * X) offsets 0%N))
      (seq 0 25).

Definition chi (b : list N) : list N :=
  map (fun i =>
         let x := (i mod 5)%nat in
         let y := (i / 5)%nat in
         N.lxor (lane b x y)
                (N.land (N.lxor (lane b (x + 1) y) 18446744073709551615)
                        (lane b (x + 2) y)))
      (seq 0 25).

Definition iota (rc : N) (a : list N) : list N :=
  match a with
  | a0 :: a' => N.lxor a0 rc :: a'
  | [] => []
  end.

Definition round (a : list N) (rc : N) : list N :=
  iota rc (chi (rhoPi (theta a))).

(** Keccak-f[1600] *)
Definition permute (a : list N) : list N := fold_left round RC a.

Definition rate : nat := 136.

(** XOR a block of [rate] bytes into the first 17 lanes. *)
Definition xorBlock (a : list N) (block : list byte) : list N :=
  map (fun i =>
         N.lxor (nth i a 0%N)
                (Blake2b.wordOfBytes (firstn 8 (skipn (8 * i) block))))
      (seq 0 25).

(** pad10*1 with the domain byte [0x01]: the last block, [rate] bytes. *)
Definition pad (tail : list byte) : list byte :=
  let n := List.length tail in
  if (n =? rate - 1)%nat then (tail ++ [x81])%list
  else (tail ++ [x01] ++ repeat x00 (rate - 2 - n) ++ [x80])%list.

Fixpoint absorb (fuel : nat) (a : list N) (message : list byte) : list N :=
  match fuel with
  | O => a
  | S fuel' =>
      if (List.length message <? rate)%nat
      then permute (xorBlock a (pad message))
      else absorb fuel' (permute (xorBlock a (firstn rate message)))
                  (skipn rate message)
  end.

(** [keccak256.array(message)]: the 32 digest bytes. *)
Definition keccak256 (message : list byte) : list byte :=
  let a := absorb (S (List.length message)) (repeat 0%N 25) message in
  map (Blake2b.outByte a) (seq 0 32).

End Keccak.

(* ------------------------------------------------------------------------- *)
(** * The curve secp256k1 *)

(** The group of the curve [y^2 = x^3 + 7] over the prime field of order [p],
    in affine coordinates, and the uncompressed encoding of a point, as the
    [elliptic] package computes them for [new ec('secp256k1')]. *)
Module Secp256k1.

Local Open Scope Z_scope.

Definition p : Z :=
  0xFFFFFFFFFFFFFFFFFFFFFFFFFFFFFFFFFFFFFFFFFFFFFFFFFFFFFFFEFFFFFC2F.

(** The order of the base point. *)
Definition n : Z :=
  0xFFFFFFFFFFFFFFFFFFFFFFFFFFFFFFFEBAAEDCE6AF48A03BBFD25E8CD0364141.

Inductive point : Type :=
| Infinity
| Affine (x y : Z).

Definition G : point :=
  Affine 0x79BE667EF9DCBBAC55A06295CE870B07029BFCDB2DCE28D959F2815B16F81798
         0x483ADA7726A3C4655DA4FBFC0E1108A8FD17B448A68554199C47D08FFB10D4B8.

Fixpoint powmod (a : Z) (e : positive) : Z :=
  match e with
  | xH => a mod p
  | xO e' => let r := powmod a e' in (r * r) mod p
  | xI e' => let r := powmod a e' in (((r * r) mod p) * a) mod p
  end.

(** The inverse modulo [p], by Fermat's little theorem. *)
Definition inv (a : Z) : Z := powmod a (Z.to_pos (p - 2)).

Definition add (P Q : point) : point :=
  match P, Q with
  | Infinity, _ => Q
  | _, Infinity => P
  | Affine x1 y1, Affine x2 y2 =>
      if x1 =? x2 then
        if (y1 + y2) mod p =? 0 then Infinity
        else
          let l := (3 * x1 * x1 * inv (2 * y1)) mod p in
          let x3 := (l * l - 2 * x1) mod p in
          Affine x3 ((l * (x1 - x3) - y1) mod p)
      else
        let l := ((y2 - y1) * inv (x2 - x1)) mod p in
        let x3 := (l * l - x1 - x2) mod p in
        Affine x3 ((l * (x1 - x3) - y1) mod p)
  end.

Fixpoint mulPos (k : positive) (P : point) : point :=
  match k with
  | xH => P
  | xO k' => let Q := mulPos k' P in add Q Q
  | xI k' => let Q := mulPos k' P in add (add Q Q) P
  end.

Definition mul (k : Z) (P : point) : point :=
  match k with
  | Zpos k' => mulPos k' P
  | _ => Infinity
  end.

(** A field element as 32 big-endian bytes. *)
Definition bytes32 (v : Z) : list byte :=
  map (fun i => Codecs.byteOfN (Z.to_N (Z.shiftr v (8 * (31 - Z.of_nat i)))))
      (seq 0 32).

(** A private key: 32 bytes as 64 hexadecimal digits, denoting a scalar
    between 1 and [n - 1]. *)
Definition validPrivateKey (s : string) : bool :=
  (String.length s =? 64)%nat && Codecs.isHex s
  && (0 <? Codecs.hexNumber s) && (Codecs.hexNumber s <? n).

(** [keyFromPrivate(priv)]: the scalar of the pair, reduced modulo [n]. *)
Definition keyFromPrivate (priv : string) : Z := Codecs.hexNumber priv mod n.

(** [getPublic()] in the uncompressed encoding: the tag [0x04], then the two
    coordinates.  The point at infinity, where [elliptic] has no encoding,
    arises only from the scalar 0 and is given zero coordinates here. *)
Definition getPublic (key : Z) : list byte :=
  match mul key G with
  | Affine x y => (x04 :: bytes32 x ++ bytes32 y)%list
  | Infinity => (x04 :: bytes32 0 ++ bytes32 0)%list
  end.

End Secp256k1.

(* ------------------------------------------------------------------------- *)
(** * The imported packages *)

(** Each package the module imports is an interface: the functions the module
    calls, with the types their declarations give them.  A digest or key that
    the package hands out as hex text is the base16 text of its bytes.  The
    functions are total, as their declarations say: an exception raised
    inside a package is not part of this model, and the only completions
    that throw are the two [throw] statements of the module itself. *)

Import JS Codecs.

(** [js-sha3]: the Keccak-256 digest of a byte array. *)
Class JsSha3 : Type := { keccak256_array : list byte -> list byte }.

(** [keccak256(message)]: the digest as hex text. *)
Definition keccak256 `{JsSha3} (message : list byte) : string :=
  encodeBase16 (keccak256_array message).

(** [blakejs]: [blake2b(input, key, outlen)]. *)
Class BlakeJs : Type :=
  { blake2b : list byte -> option (list byte) -> nat -> list byte }.

(** [blake2bHex(input, key, outlen)]: the digest as hex text. *)
Definition blake2bHex `{BlakeJs} (input : list byte) (key : option (list byte))
    (outlen : nat) : string :=
  encodeBase16 (blake2b input key outlen).

(** [elliptic], for the curve context [new ec('secp256k1')]: a key pair from
    the hex text of a private key, and the encoded public point of a pair. *)
Class EllipticEc : Type :=
  { KeyPair : Type;
    keyFromPrivate : string -> KeyPair;
    getPublic_array : KeyPair -> list byte }.

(** [key.getPublic('hex')] *)
Definition getPublic_hex `{EllipticEc} (key : KeyPair) : string :=
  encodeBase16 (getPublic_array key).

(** [bip39].  [generateMnemonic()] draws its entropy from the platform's
    random source; the bytes drawn are an argument here. *)
Class Bip39 : Type :=
  { generateMnemonic : list byte -> string;
    validateMnemonic : string -> bool;
    mnemonicToSeedSync : string -> list byte }.

(** [hdkey]: BIP-32 nodes; a node's private key may be absent. *)
Class HdKey : Type :=
  { HDKey : Type;
    fromMasterSeed : list byte -> HDKey;
    derive : HDKey -> string -> HDKey;
    privateKey : HDKey -> option (list byte) }.

(** [buffer.toString('hex')] *)
Definition toString_hex (buffer : list byte) : string := encodeBase16 buffer.

(* ------------------------------------------------------------------------- *)
(** * The module [rev-address.ts] *)

(** The wallet descriptor.  At run time it is an object whose properties may
    each be missing, [revAddr] included: the casts [as RevAddress] do not
    check. *)
Record RevAddress : Type :=
  { revAddr : option string;
    ethAddr : option string;
    pubKey : option string;
    privKey : option string;
    mnemonic : option string }.

Definition orElse {A} (o base : option A) : option A :=
  match o with Some _ => o | None => base end.

(** [{ ...base, ...over }]: the properties of [over] win. *)
Definition spread (base over : RevAddress) : RevAddress :=
  {| revAddr := orElse (revAddr over) (revAddr base);
     ethAddr := orElse (ethAddr over) (ethAddr base);
     pubKey := orElse (pubKey over) (pubKey base);
     privKey := orElse (privKey over) (privKey base);
     mnemonic := orElse (mnemonic over) (mnemonic base) |}.

(** [{ ...base, ...over }] where [over] may be [undefined]: spreading
    [undefined] adds nothing. *)
Definition spreadMaybe (base : RevAddress) (over : option RevAddress)
  : RevAddress :=
  match over with Some o => spread base o | None => base end.

Record Prefix : Type := { coinId : string; version : string }.

Definition prefix : Prefix := {| coinId := "000000"; version := "00" |}.

(** [!s || s.length !== n] *)
Definition badLength (s : string) (n : nat) : bool :=
  negb (truthy s) || negb (String.length s =? n)%nat.

Section RevAddressModule.

Context {sha3 : JsSha3} {blake : BlakeJs} {secp256k1 : EllipticEc}
        {bip39 : Bip39} {hdkey : HdKey}.

Definition getAddrFromEth (ethAddrRaw : string) : option string :=
  let ethAddr := strip0x ethAddrRaw in
  if badLength ethAddr 40 then None
  else
    let ethHash := keccak256 (decodeBase16 ethAddr) in
    let payload := coinId prefix ++ version prefix ++ ethHash in
    let checksum :=
      sliceString (blake2bHex (decodeBase16 payload) None 32) 0 (Some 8%Z) in
    Some (encodeBase58 (payload ++ checksum)).

Definition getAddrFromPublicKey (publicKeyRaw : string) : option RevAddress :=
  let publicKey := strip0x publicKeyRaw in
  if badLength publicKey 130 then None
  else
    let pkHash := keccak256 (slice (decodeBase16 publicKey) 1 None) in
    let ethAddr := sliceString pkHash (-40) None in
    match getAddrFromEth ethAddr with
    | Some revAddr =>
        if truthy revAddr
        then Some {| revAddr := Some revAddr; ethAddr := Some ethAddr;
                     pubKey := None; privKey := None; mnemonic := None |}
        else None
    | None => None
    end.

Definition getAddrFromPrivateKey (privateKeyRaw : string)
  : option RevAddress :=
  let privateKey := strip0x privateKeyRaw in
  if badLength privateKey 64 then None
  else
    let key := keyFromPrivate privateKey in
    let pubKey := getPublic_hex key in
    match getAddrFromPublicKey pubKey with
    | Some addr =>
        Some (spread {| revAddr := None; ethAddr := None;
                        pubKey := Some pubKey; privKey := None;
                        mnemonic := None |} addr)
    | None => None
    end.

Definition verifyRevAddr (revAddr : string) : bool :=
  match decodeBase58safe revAddr with
  | None => false
  | Some revBytes =>
      let revHex := encodeBase16 revBytes in
      let payload := sliceString revHex 0 (Some (-8)%Z) in
      let checksum := sliceString revHex (-8) None in
      let checksumRef :=
        sliceString (blake2bHex (decodeBase16 payload) None 32) 0 (Some 8%Z) in
      String.eqb checksum checksumRef
  end.

Definition privKeyFromMnemonic (mnemonic : string) : completion string :=
  let seed := mnemonicToSeedSync mnemonic in
  let hd := fromMasterSeed seed in
  let child := derive hd "m/44'/60'/0'/0/0" in
  match privateKey child with
  | None => Throw "Unable to derive private key (HD node neutered?)"
  | Some key => Normal (toString_hex key)
  end.

(** [entropy]: the bytes [bip39.generateMnemonic()] draws on this call. *)
Definition newRevAddress (entropy : list byte) : completion RevAddress :=
  let mnemonic := generateMnemonic entropy in
  match privKeyFromMnemonic mnemonic with
  | Throw message => Throw message
  | Normal privKey =>
      let addr := getAddrFromPrivateKey privKey in
      Normal (spreadMaybe {| revAddr := None; ethAddr := None; pubKey := None;
                             privKey := Some privKey;
                             mnemonic := Some mnemonic |} addr)
  end.

Definition revAddressFromMnemonic (mnemonic : string)
  : completion RevAddress :=
  if negb (validateMnemonic mnemonic) then Throw "Invalid BIP-39 mnemonic"
  else
    match privKeyFromMnemonic mnemonic with
    | Throw message => Throw message
    | Normal privKey =>
        let addr := getAddrFromPrivateKey privKey in
        Normal (spreadMaybe {| revAddr := None; ethAddr := None;
                               pubKey := None; privKey := Some privKey;
                               mnemonic := Some mnemonic |} addr)
    end.

Definition parseRevAddress (text : string) : option RevAddress :=
  let val := trim (strip0x text) in
  let fromPriv := getAddrFromPrivateKey val in
  let fromPub := getAddrFromPublicKey val in
  let fromEth := getAddrFromEth val in
  let isRev := verifyRevAddr val in
  if isRev then
    Some {| revAddr := Some text; ethAddr := None; pubKey := None;
            privKey := None; mnemonic := None |}
  else
    match fromPriv, fromPub, fromEth with
    | Some fromPriv, _, _ =>
        Some (spread {| revAddr := None; ethAddr := None; pubKey := None;
                        privKey := Some val; mnemonic := None |} fromPriv)
    | None, Some fromPub, _ =>
        Some (spread {| revAddr := None; ethAddr := None;
                        pubKey := Some val; privKey := None;
                        mnemonic := None |} fromPub)
    | None, None, Some fromEth =>
        if truthy fromEth
        then Some {| revAddr := Some fromEth; ethAddr := Some val;
                     pubKey := None; privKey := None; mnemonic := None |}
        else None
    | None, None, None => None
    end.

End RevAddressModule.


(* ------------------------------------------------------------------------- *)
(** * Implementations of the packages *)

(** The three packages whose algorithms are fixed by public standards. *)
Definition blakejs : BlakeJs := {| blake2b := Blake2b.blake2b |}.

Definition jsSha3 : JsSha3 := {| keccak256_array := Keccak.keccak256 |}.

Definition elliptic : EllipticEc :=
  {| KeyPair := Z;
     keyFromPrivate := Secp256k1.keyFromPrivate;
     getPublic_array := Secp256k1.getPublic |}.

(** Stand-ins for [bip39] and [hdkey].  They have the packages' shape (a
    phrase made from the entropy and validated by its form, a key read off
    the seed) without the word list and the HMAC chain of BIP-39 and BIP-32;
    they serve where a statement about the wallet functions is to be run. *)
Module Sample.

Definition phrase (entropy : list byte) : string :=
  encodeBase16 (firstn 16 (entropy ++ repeat x00 16)%list).

Definition wellFormed (s : string) : bool :=
  (String.length s =? 32)%nat
  && forallb isLowerHexDigit (list_ascii_of_string s).

Definition bip39 : Bip39 :=
  {| generateMnemonic := phrase;
     validateMnemonic := wellFormed;
     mnemonicToSeedSync := fun m => Blake2b.blake2b (list_byte_of_string m) None 64 |}.

(** The key of a node: the scalar 1 or 2, by the parity of the node's first
    byte. *)
Definition nodeKey (node : list byte) : list byte :=
  match node with
  | b0 :: _ => if N.even (Byte.to_N b0) then Secp256k1.bytes32 2
               else Secp256k1.bytes32 1
  | [] => Secp256k1.bytes32 1
  end.

Definition hdkey : HdKey :=
  {| HDKey := list byte;
     fromMasterSeed := fun seed => seed;
     derive := fun node path =>
       Blake2b.blake2b (node ++ list_byte_of_string path)%list None 32;
     privateKey := fun node => Some (nodeKey node) |}.

(** The wallet that the entropy bytes 01 02 give with these stand-ins. *)
Definition wallet : RevAddress :=
  {| revAddr := Some "1111PXDQTDEd4XNuX4YWoB6XeL7ssWvhePGD2XmkENkG5sHfAMW9Q";
     ethAddr := Some "7e5f4552091a69125d5dfcb7b8c2659029395bdf";
     pubKey := Some "0479be667ef9dcbbac55a06295ce870b07029bfcdb2dce28d959f2815b16f81798483ada7726a3c4655da4fbfc0e1108a8fd17b448a68554199c47d08ffb10d4b8";
     privKey := Some "0000000000000000000000000000000000000000000000000000000000000001";
     mnemonic := Some "01020000000000000000000000000000" |}.

End Sample.

(* ------------------------------------------------------------------------- *)
(** * What the module relies on *)

(** The facts about the imported packages that the properties below use,
    each stated on the package's interface. *)

Definition DigestLength (sha3 : JsSha3) : Prop :=
  forall message, List.length (keccak256_array message) = 32.

Definition ChecksumLength (blake : BlakeJs) : Prop :=
  forall input, List.length (blake2b input None 32) = 32.

Definition PublicKeyUncompressed (secp256k1 : EllipticEc) : Prop :=
  forall priv,
    Secp256k1.validPrivateKey priv = true ->
    List.length (getPublic_array (keyFromPrivate priv)) = 65.

Definition GeneratedMnemonicValid (bip39 : Bip39) : Prop :=
  forall entropy, validateMnemonic (generateMnemonic entropy) = true.

Definition DerivedKeyPresent (hdkey : HdKey) : Prop :=
  forall seed path, privateKey (derive (fromMasterSeed seed) path) <> None.

Definition DerivedKeyValid (hdkey : HdKey) : Prop :=
  forall seed path key,
    privateKey (derive (fromMasterSeed seed) path) = Some key ->
    Secp256k1.validPrivateKey (toString_hex key) = true.

(* ------------------------------------------------------------------------- *)
(** * Vocabulary of the properties *)

Definition lowerHex (s : string) : bool :=
  forallb isLowerHexDigit (list_ascii_of_string s).

(** Canonical hex text: lower-case digits and no ["0x"] in front. *)
Definition canonicalHex (s : string) : bool :=
  lowerHex s && negb (has0x s).

Definition canonicalField (field : option string) : bool :=
  match field with Some s => canonicalHex s | None => true end.

Definition hexFieldsCanonical (r : RevAddress) : bool :=
  canonicalField (privKey r) && canonicalField (pubKey r)
  && canonicalField (ethAddr r).

Definition present {A} (field : option A) : bool :=
  match field with Some _ => true | None => false end.

(** All five properties of the wallet descriptor are there. *)
Definition complete (r : RevAddress) : bool :=
  present (mnemonic r) && present (privKey r) && present (pubKey r)
  && present (ethAddr r) && present (revAddr r).



(** The ETH address bytes of a public key: the last 20 bytes of the Keccak
    digest of the key without its tag byte. *)
Definition ethBytesOfPublic `{JsSha3} (publicKey : string) : list byte :=
  slice (keccak256_array (slice (decodeBase16 publicKey) 1 None)) (-20) None.

(** The address of an ETH address in the words of the specification:
    [payload = coinIdPrefix || versionPrefix || hash] and
    [checksum = Blake2b-256(payload)[0:4]], encoded in base 58. *)
Definition specAddrFromEth `{JsSha3} `{BlakeJs} (ethBytes : list byte)
  : string :=
  let coinIdPrefix := [x00; x00; x00] in
  let versionPrefix := [x00] in
  let hash := keccak256_array ethBytes in
  let payload := (coinIdPrefix ++ versionPrefix ++ hash)%list in
  let checksum := firstn 4 (blake2b payload None 32) in
  bs58_encode (payload ++ checksum)%list.

(* ------------------------------------------------------------------------- *)
(** * Properties *)

Local Open Scope list_scope.

(** ** The algorithms on published test vectors *)

(** RFC 7693, appendix A. *)
Example blake2b_512_abc :
  encodeBase16 (Blake2b.blake2b (list_byte_of_string "abc") None 64)
  = "ba80a53f981c4d0d6a2797b69f12f6e94c212f14685ac4b74b12bb6fdbffa2d17d87c5392aab792dc252d5de4533cc9518d38aa8dbf1925ab92386edd4009923".
Proof. vm_compute; reflexivity. Qed.

Example blake2b_256_empty :
  encodeBase16 (Blake2b.blake2b [] None 32)
  = "0e5751c026e543b2e8ab2eb06099daa1d1e5df47778f7787faab45cdf12fe3a8".
Proof. vm_compute; reflexivity. Qed.

Example keccak256_empty :
  encodeBase16 (Keccak.keccak256 [])
  = "c5d2460186f7233c927e7db2dcc703c0e500b653ca82273b7bfad8045d85a470".
Proof. vm_compute; reflexivity. Qed.

(** The public key of the scalar 2. *)
Example secp256k1_double_G :
  encodeBase16 (Secp256k1.getPublic 2)
  = "04c6047f9441ed7d6d3045406e95c07cd85c778e4b8cef3ca7abac09b95c709ee51ae168fea63dc339a3c58419466ceaeef7f632653266d0e1236431a950cfe52a".
Proof. vm_compute; reflexivity. Qed.

Example bs58_hello_world :
  bs58_encode (list_byte_of_string "Hello World!") = "2NEpo7TZRRrLZSi2U".
Proof. vm_compute; reflexivity. Qed.

Example bs58_leading_zero :
  bs58_encode (decodeBase16 "003c176e659bea0f29a3e9bf7880c112b1b31b4dc826268187")
  = "16UjcYNBG9GTK4uq2f7yYEbuifqCzoLMGS".
Proof. vm_compute; reflexivity. Qed.

(** ** Strings and their character lists *)

Lemma length_string_of_list (l : list ascii) :
  String.length (string_of_list_ascii l) = List.length l.
Proof. induction l as [|c l IH]; simpl; [reflexivity | now rewrite IH]. Qed.

Lemma length_list_of_string (s : string) :
  List.length (list_ascii_of_string s) = String.length s.
Proof. induction s as [|c s IH]; simpl; [reflexivity | now rewrite IH]. Qed.

Lemma list_of_string_app (s1 s2 : string) :
  list_ascii_of_string (s1 ++ s2)%string
  = list_ascii_of_string s1 ++ list_ascii_of_string s2.
Proof. induction s1 as [|c s1 IH]; simpl; [reflexivity | now rewrite IH]. Qed.

Lemma string_of_list_app (l1 l2 : list ascii) :
  string_of_list_ascii (l1 ++ l2)
  = (string_of_list_ascii l1 ++ string_of_list_ascii l2)%string.
Proof. induction l1 as [|c l1 IH]; simpl; [reflexivity | now rewrite IH]. Qed.

Lemma string_of_list_inj (l1 l2 : list ascii) :
  string_of_list_ascii l1 = string_of_list_ascii l2 -> l1 = l2.
Proof.
  intros E. rewrite <- (list_ascii_of_string_of_list_ascii l1), E.
  apply list_ascii_of_string_of_list_ascii.
Qed.

Lemma truthy_length (s : string) : truthy s = true <-> String.length s <> 0.
Proof. destruct s; simpl; split; congruence || lia. Qed.

Lemma badLength_false (s : string) (n : nat) :
  String.length s = n -> n <> 0 -> badLength s n = false.
Proof.
  intros L N. unfold badLength.
  assert (T : truthy s = true) by (apply truthy_length; lia).
  rewrite T, L, Nat.eqb_refl. reflexivity.
Qed.

Lemma badLength_true (s : string) (n : nat) :
  String.length s <> n -> badLength s n = true.
Proof.
  intros L. unfold badLength.
  apply Nat.eqb_neq in L. rewrite L. apply orb_true_r.
Qed.

(** ** [slice] *)

Lemma relIndex_nat (n k : nat) :
  relIndex (Z.of_nat n) (Z.of_nat k) = Z.of_nat (Nat.min k n).
Proof.
  unfold relIndex.
  destruct (Z.of_nat k <? 0)%Z eqn:E; [apply Z.ltb_lt in E|]; lia.
Qed.

Lemma relIndex_neg (n k : nat) :
  k <> 0 -> relIndex (Z.of_nat n) (- Z.of_nat k) = Z.of_nat (n - k).
Proof.
  intros K. unfold relIndex.
  destruct (- Z.of_nat k <? 0)%Z eqn:E; [|apply Z.ltb_ge in E]; lia.
Qed.

Lemma slice_to {A} (l : list A) (k : nat) :
  slice l 0 (Some (Z.of_nat k)) = firstn k l.
Proof.
  unfold slice. change 0%Z with (Z.of_nat 0). rewrite !relIndex_nat.
  simpl Nat.min. simpl Z.of_nat at 2. rewrite Z.sub_0_r, Nat2Z.id. simpl skipn.
  destruct (Nat.le_gt_cases k (List.length l)).
  - now rewrite Nat.min_l by lia.
  - rewrite Nat.min_r by lia. rewrite firstn_all.
    symmetry. apply firstn_all2. lia.
Qed.

Lemma slice_from {A} (l : list A) (k : nat) :
  slice l (Z.of_nat k) None = skipn k l.
Proof.
  unfold slice. rewrite relIndex_nat.
  destruct (Nat.le_gt_cases k (List.length l)).
  - rewrite Nat.min_l by lia. rewrite Nat2Z.id.
    apply firstn_all2. rewrite length_skipn. lia.
  - rewrite Nat.min_r by lia. rewrite Nat2Z.id, Z.sub_diag. simpl.
    symmetry. apply skipn_all2. lia.
Qed.

Lemma slice_drop_last {A} (l : list A) (k : nat) :
  k <> 0 -> slice l 0 (Some (- Z.of_nat k)%Z) = firstn (List.length l - k) l.
Proof.
  intros K. unfold slice. rewrite relIndex_neg by assumption.
  change 0%Z with (Z.of_nat 0). rewrite relIndex_nat. simpl Nat.min.
  simpl Z.of_nat at 2. rewrite Z.sub_0_r, Nat2Z.id. reflexivity.
Qed.

Lemma slice_last {A} (l : list A) (k : nat) :
  k <> 0 -> slice l (- Z.of_nat k)%Z None = skipn (List.length l - k) l.
Proof.
  intros K. unfold slice. rewrite relIndex_neg by assumption.
  rewrite Nat2Z.id. apply firstn_all2. rewrite length_skipn. lia.
Qed.

(** A slice ending four from the end and the last four make the whole. *)
Lemma slice_split_last {A} (l : list A) (k : nat) :
  k <> 0 ->
  slice l 0 (Some (- Z.of_nat k)%Z) ++ slice l (- Z.of_nat k)%Z None = l.
Proof.
  intros K. rewrite slice_drop_last, slice_last by assumption.
  apply firstn_skipn.
Qed.

(** ** Base 16 *)

Lemma length_hexChars (bytes : list byte) :
  List.length (flat_map hexOfByte bytes) = 2 * List.length bytes.
Proof. induction bytes as [|b bs IH]; simpl; lia. Qed.

Lemma length_encodeBase16 (bytes : list byte) :
  String.length (encodeBase16 bytes) = 2 * List.length bytes.
Proof. unfold encodeBase16. now rewrite length_string_of_list, length_hexChars. Qed.

Lemma encodeBase16_app (b1 b2 : list byte) :
  encodeBase16 (b1 ++ b2) = (encodeBase16 b1 ++ encodeBase16 b2)%string.
Proof. unfold encodeBase16. now rewrite flat_map_app, string_of_list_app. Qed.

Lemma decodePairs_hexOfByte (b : byte) (rest : list ascii) :
  decodePairs (hexOfByte b ++ rest) = b :: decodePairs rest.
Proof. destruct b; reflexivity. Qed.

Lemma decodePairs_hexChars (bytes : list byte) :
  decodePairs (flat_map hexOfByte bytes) = bytes.
Proof.
  induction bytes as [|b bs IH]; [reflexivity|].
  change (flat_map hexOfByte (b :: bs))
    with (hexOfByte b ++ flat_map hexOfByte bs).
  rewrite decodePairs_hexOfByte. now rewrite IH.
Qed.

(** Decoding undoes encoding. *)
Lemma decodeBase16_encodeBase16 (bytes : list byte) :
  decodeBase16 (encodeBase16 bytes) = bytes.
Proof.
  unfold decodeBase16, encodeBase16.
  rewrite list_ascii_of_string_of_list_ascii. apply decodePairs_hexChars.
Qed.

Lemma encodeBase16_inj (b1 b2 : list byte) :
  encodeBase16 b1 = encodeBase16 b2 -> b1 = b2.
Proof.
  intros E. rewrite <- (decodeBase16_encodeBase16 b1), E.
  apply decodeBase16_encodeBase16.
Qed.

Lemma firstn_hexChars (k : nat) (bytes : list byte) :
  firstn (2 * k) (flat_map hexOfByte bytes) = flat_map hexOfByte (firstn k bytes).
Proof.
  revert bytes. induction k as [|k IH]; intros bytes; [reflexivity|].
  destruct bytes as [|b bs]; [reflexivity|].
  replace (2 * S k) with (S (S (2 * k))) by lia.
  simpl. now rewrite <- IH.
Qed.

Lemma skipn_hexChars (k : nat) (bytes : list byte) :
  skipn (2 * k) (flat_map hexOfByte bytes) = flat_map hexOfByte (skipn k bytes).
Proof.
  revert bytes. induction k as [|k IH]; intros bytes; [reflexivity|].
  destruct bytes as [|b bs]; [reflexivity|].
  replace (2 * S k) with (S (S (2 * k))) by lia.
  simpl. now rewrite <- IH.
Qed.

Lemma relIndex_double (len i : Z) :
  relIndex (2 * len) (2 * i) = (2 * relIndex len i)%Z.
Proof.
  unfold relIndex.
  destruct (i <? 0)%Z eqn:E.
  - apply Z.ltb_lt in E.
    destruct (2 * i <? 0)%Z eqn:E2; [|apply Z.ltb_ge in E2; lia]. lia.
  - apply Z.ltb_ge in E.
    destruct (2 * i <? 0)%Z eqn:E2; [apply Z.ltb_lt in E2; lia|]. lia.
Qed.

Lemma relIndex_range (len i : Z) :
  (0 <= len -> 0 <= relIndex len i <= len)%Z.
Proof.
  unfold relIndex.
  destruct (i <? 0)%Z eqn:E; [apply Z.ltb_lt in E | apply Z.ltb_ge in E]; lia.
Qed.

(** Slicing hex text at even indices slices the bytes. *)
Lemma sliceString_encodeBase16 (bytes : list byte) (start : Z) (end_ : option Z) :
  sliceString (encodeBase16 bytes) (2 * start)
              (option_map (Z.mul 2) end_)
  = encodeBase16 (slice bytes start end_).
Proof.
  unfold sliceString, encodeBase16.
  rewrite list_ascii_of_string_of_list_ascii. f_equal.
  unfold slice. rewrite length_hexChars.
  set (len := Z.of_nat (List.length bytes)).
  replace (Z.of_nat (2 * List.length bytes)) with (2 * len)%Z by lia.
  rewrite relIndex_double.
  assert (R := relIndex_range len start ltac:(lia)).
  set (from := relIndex len start) in *.
  assert (E : (match option_map (Z.mul 2) end_ with
               | Some e => relIndex (2 * len) e
               | None => 2 * len
               end = 2 * match end_ with
                         | Some e => relIndex len e
                         | None => len
                         end)%Z).
  { destruct end_ as [e|]; simpl; [apply relIndex_double | reflexivity]. }
  rewrite E. set (to := match end_ with Some e => relIndex len e | None => len end).
  replace (Z.to_nat (2 * to - 2 * from)) with (2 * Z.to_nat (to - from)) by lia.
  replace (Z.to_nat (2 * from)) with (2 * Z.to_nat from) by lia.
  now rewrite skipn_hexChars, firstn_hexChars.
Qed.

Lemma isLowerHexDigit_hexOfByte (b : byte) :
  forallb isLowerHexDigit (hexOfByte b) = true.
Proof. destruct b; reflexivity. Qed.

Lemma lowerHex_encodeBase16 (bytes : list byte) :
  lowerHex (encodeBase16 bytes) = true.
Proof.
  unfold lowerHex, encodeBase16. rewrite list_ascii_of_string_of_list_ascii.
  induction bytes as [|b bs IH]; [reflexivity|].
  change (flat_map hexOfByte (b :: bs))
    with (hexOfByte b ++ flat_map hexOfByte bs).
  rewrite forallb_app, isLowerHexDigit_hexOfByte. exact IH.
Qed.

Lemma lowerHex_no_prefix (s : string) :
  lowerHex s = true -> strip0x s = s /\ has0x s = false.
Proof.
  destruct s as [|c0 [|c1 s]]; [now split | intros _; split |].
  - destruct c0 as [[] [] [] [] [] [] [] []]; reflexivity.
  - destruct c0 as [[] [] [] [] [] [] [] []]; reflexivity.
  - unfold lowerHex. simpl. intros H.
    apply andb_true_iff in H as [_ H]. apply andb_true_iff in H as [H _].
    assert (X : c1 <> "x"%char) by (intros ->; discriminate H).
    split.
    + destruct c0 as [[] [] [] [] [] [] [] []]; try reflexivity.
      destruct c1 as [[] [] [] [] [] [] [] []]; try reflexivity.
      now elim X.
    + destruct c0 as [[] [] [] [] [] [] [] []]; try reflexivity.
      destruct c1 as [[] [] [] [] [] [] [] []]; try reflexivity.
      now elim X.
Qed.

Lemma canonicalHex_encodeBase16 (bytes : list byte) :
  canonicalHex (encodeBase16 bytes) = true.
Proof.
  unfold canonicalHex. rewrite lowerHex_encodeBase16.
  destruct (lowerHex_no_prefix _ (lowerHex_encodeBase16 bytes)) as [_ ->].
  reflexivity.
Qed.

(** ** Positional notation *)

Section Digits.

Local Open Scope N_scope.

Variable b : N.
Hypothesis b_gt_1 : 1 < b.

Lemma toDigits_zero (fuel : nat) : toDigits fuel b 0 = [].
Proof. destruct fuel; reflexivity. Qed.

Lemma div_base_lt (fuel : nat) (n : N) :
  n < 2 ^ N.of_nat (S fuel) -> n / b < 2 ^ N.of_nat fuel.
Proof.
  intros H. apply N.Div0.div_lt_upper_bound.
  rewrite Nat2N.inj_succ, N.pow_succ_r' in H. nia.
Qed.

Lemma lt_pow_0 (n : N) : n < 2 ^ N.of_nat 0 -> n = 0.
Proof. simpl. lia. Qed.

(** The digits of [n] denote [n]. *)
Lemma ofDigits_toDigits (fuel : nat) (n : N) :
  n < 2 ^ N.of_nat fuel -> ofDigits b (toDigits fuel b n) = n.
Proof.
  revert n. induction fuel as [|fuel IH]; intros n H.
  - apply lt_pow_0 in H. now subst.
  - cbn [toDigits]. destruct (N.eqb_spec n 0) as [->|NZ]; [reflexivity|].
    cbn [ofDigits]. rewrite IH by now apply div_base_lt.
    rewrite (N.div_mod' n b) at 3. lia.
Qed.

Lemma toDigits_lt (fuel : nat) (n : N) :
  Forall (fun d => d < b) (toDigits fuel b n).
Proof.
  revert n. induction fuel as [|fuel IH]; intros n; cbn [toDigits].
  - constructor.
  - destruct (n =? 0); constructor; [apply N.mod_lt; lia | apply IH].
Qed.

Lemma toDigits_nil (fuel : nat) (n : N) :
  n < 2 ^ N.of_nat fuel -> toDigits fuel b n = [] -> n = 0.
Proof.
  destruct fuel as [|fuel]; intros H.
  - intros _. now apply lt_pow_0.
  - cbn [toDigits]. destruct (N.eqb_spec n 0); [trivial | discriminate].
Qed.

(** The digits of a number are in normal form. *)
Lemma toDigits_normal (fuel : nat) (n : N) :
  n < 2 ^ N.of_nat fuel -> normal (toDigits fuel b n).
Proof.
  revert n. induction fuel as [|fuel IH]; intros n H; cbn [toDigits].
  - exact I.
  - destruct (N.eqb_spec n 0) as [->|NZ]; [exact I|].
    assert (Hq := div_base_lt _ _ H).
    specialize (IH _ Hq).
    destruct (toDigits fuel b (n / b)) as [|d ds] eqn:T; cbn [normal].
    + apply toDigits_nil in T; [|assumption].
      apply N.div_small_iff in T; [|lia].
      rewrite N.mod_small by assumption. exact NZ.
    + exact IH.
Qed.

Lemma ofDigits_nonzero (ds : list N) :
  normal ds -> ds <> [] -> ofDigits b ds <> 0.
Proof.
  induction ds as [|d ds IH]; [congruence|].
  intros Hn _. cbn [ofDigits]. destruct ds as [|d' ds].
  - cbn [normal] in Hn. simpl. lia.
  - cbn [normal] in Hn. assert (ofDigits b (d' :: ds) <> 0)
      by (apply IH; [exact Hn | discriminate]).
    nia.
Qed.

Lemma normal_tail (d : N) (ds : list N) : normal (d :: ds) -> normal ds.
Proof. destruct ds; [intros _; exact I | trivial]. Qed.

(** Digits in normal form are the digits of the number they denote. *)
Lemma toDigits_ofDigits (ds : list N) (fuel : nat) :
  normal ds -> Forall (fun d => d < b) ds ->
  ofDigits b ds < 2 ^ N.of_nat fuel ->
  toDigits fuel b (ofDigits b ds) = ds.
Proof.
  revert fuel. induction ds as [|d ds IH]; intros fuel Hn Hlt Hf.
  - apply toDigits_zero.
  - assert (NZ : ofDigits b (d :: ds) <> 0)
      by (apply ofDigits_nonzero; [exact Hn | discriminate]).
    destruct fuel as [|fuel]; [apply lt_pow_0 in Hf; contradiction|].
    cbn [toDigits]. destruct (N.eqb_spec (ofDigits b (d :: ds)) 0); [contradiction|].
    inversion Hlt as [|? ? Hd Hds]; subst.
    assert (Hq := div_base_lt _ _ Hf).
    cbn [ofDigits] in *.
    assert (Em : (d + b * ofDigits b ds) mod b = d).
    { symmetry. apply (N.mod_unique _ _ (ofDigits b ds)); [assumption | lia]. }
    assert (Eq : (d + b * ofDigits b ds) / b = ofDigits b ds).
    { symmetry. apply (N.div_unique _ _ _ d); [assumption | lia]. }
    rewrite Em, Eq in *. f_equal.
    apply IH; [now apply normal_tail in Hn | assumption | assumption].
Qed.

Lemma ofDigits_zeros (z : nat) : ofDigits b (repeat 0 z) = 0.
Proof. induction z as [|z IH]; cbn [repeat ofDigits]; [reflexivity | lia]. Qed.

(** Zero digits at the most significant end do not change the number. *)
Lemma ofDigits_app_zeros (ds : list N) (z : nat) :
  ofDigits b (ds ++ repeat 0 z) = ofDigits b ds.
Proof.
  induction ds as [|d ds IH]; cbn [app ofDigits].
  - apply ofDigits_zeros.
  - now rewrite IH.
Qed.

Lemma bits_enough (n : N) : n < 2 ^ N.of_nat (bits n).
Proof. unfold bits. rewrite N2Nat.id. apply N.size_gt. Qed.

Lemma ofDigits_digitsOf (n : N) : ofDigits b (digitsOf b n) = n.
Proof. apply ofDigits_toDigits, bits_enough. Qed.

Lemma digitsOf_ofDigits (ds : list N) :
  normal ds -> Forall (fun d => d < b) ds ->
  digitsOf b (ofDigits b ds) = ds.
Proof. intros Hn Hlt. apply toDigits_ofDigits; auto using bits_enough. Qed.

Lemma digitsOf_lt (n : N) : Forall (fun d => d < b) (digitsOf b n).
Proof. apply toDigits_lt. Qed.

Lemma digitsOf_normal (n : N) : normal (digitsOf b n).
Proof. apply toDigits_normal, bits_enough. Qed.

End Digits.

Lemma normal_snoc (l : list N) (x : N) : normal (l ++ [x]) <-> x <> 0%N.
Proof.
  induction l as [|a l IH]; [reflexivity|].
  cbn [app normal]. destruct (l ++ [x]) eqn:E; [|exact IH].
  now destruct l.
Qed.

Lemma normal_rev (r : list N) : headNonZero r <-> normal (rev r).
Proof.
  destruct r as [|d r]; [reflexivity|].
  cbn [rev headNonZero]. symmetry. apply normal_snoc.
Qed.

Lemma headNonZero_rev (ds : list N) : normal ds <-> headNonZero (rev ds).
Proof. rewrite normal_rev, rev_involutive. reflexivity. Qed.

(** A digit list is its leading zeros followed by a list that starts with a
    non-zero digit. *)
Lemma split_leading_zeros (ds : list N) :
  exists r, ds = repeat 0%N (countLeading isZero ds) ++ r /\ headNonZero r.
Proof.
  induction ds as [|d ds (r & E & H)].
  - exists []. now split.
  - cbn [countLeading]. unfold isZero at 1.
    destruct (N.eqb_spec d 0) as [->|NZ].
    + exists r. cbn [repeat app]. now rewrite <- E.
    + exists (d :: ds). now split.
Qed.

Lemma countLeading_zeros (z : nat) (r : list N) :
  headNonZero r -> countLeading isZero (repeat 0%N z ++ r) = z.
Proof.
  intros H. induction z as [|z IH]; cbn [repeat app countLeading].
  - destruct r as [|d r]; [reflexivity|]. cbn [countLeading headNonZero] in *.
    unfold isZero. now destruct (N.eqb_spec d 0).
  - now rewrite IH.
Qed.

Lemma rev_zeros (z : nat) : rev (repeat 0%N z) = repeat 0%N z.
Proof.
  induction z as [|z IH]; [reflexivity|].
  cbn [repeat rev]. rewrite IH. symmetry. apply repeat_cons.
Qed.

Section Convert.

Variables b1 b2 : N.
Hypothesis b1_gt_1 : (1 < b1)%N.
Hypothesis b2_gt_1 : (1 < b2)%N.

Lemma convert_lt (ds : list N) :
  Forall (fun d => d < b2)%N (convert b1 b2 ds).
Proof.
  unfold convert. apply Forall_app. split.
  - apply Forall_forall. intros x Hx. apply repeat_spec in Hx. subst. lia.
  - apply Forall_rev. now apply digitsOf_lt.
Qed.

End Convert.

(** Converting to another base and back gives the digits again. *)
Lemma convert_inverse (b1 b2 : N) (ds : list N) :
  (1 < b1)%N -> (1 < b2)%N -> Forall (fun d => d < b1)%N ds ->
  convert b2 b1 (convert b1 b2 ds) = ds.
Proof.
  intros H1 H2 Hlt.
  destruct (split_leading_zeros ds) as (r & E & Hr).
  set (z := countLeading isZero ds) in *.
  assert (Hlt_r : Forall (fun d => d < b1)%N r).
  { rewrite E in Hlt. now apply Forall_app in Hlt. }
  assert (V : ofDigits b1 (rev ds) = ofDigits b1 (rev r)).
  { rewrite E at 1. rewrite rev_app_distr, rev_zeros. now apply ofDigits_app_zeros. }
  set (D := digitsOf b2 (ofDigits b1 (rev ds))).
  assert (C : convert b1 b2 ds = repeat 0%N z ++ rev D) by reflexivity.
  assert (HD : headNonZero (rev D)).
  { apply headNonZero_rev. now apply digitsOf_normal. }
  unfold convert at 1. rewrite C, countLeading_zeros by assumption.
  rewrite rev_app_distr, rev_involutive, rev_zeros, ofDigits_app_zeros by assumption.
  unfold D. rewrite ofDigits_digitsOf by assumption. rewrite V.
  rewrite digitsOf_ofDigits; [ | assumption | now apply normal_rev | now apply Forall_rev ].
  now rewrite rev_involutive.
Qed.

(** ** Base 58 *)

Lemma byteOfN_to_N (x : byte) : byteOfN (Byte.to_N x) = x.
Proof.
  unfold byteOfN. rewrite N.mod_small.
  - now rewrite Byte.of_to_N.
  - pose proof (Byte.to_N_bounded x). lia.
Qed.

Lemma to_N_byteOfN (n : N) : (n < 256)%N -> Byte.to_N (byteOfN n) = n.
Proof.
  intros H. unfold byteOfN. rewrite N.mod_small by assumption.
  destruct (Byte.of_N n) as [y|] eqn:E.
  - now apply Byte.to_of_N.
  - apply Byte.of_N_None_iff in E. lia.
Qed.

Lemma map_byteOfN_to_N (bytes : list byte) :
  map byteOfN (map Byte.to_N bytes) = bytes.
Proof.
  rewrite map_map. rewrite <- (map_id bytes) at 2.
  apply map_ext. exact byteOfN_to_N.
Qed.

Lemma map_to_N_byteOfN (ds : list N) :
  Forall (fun d => d < 256)%N ds -> map Byte.to_N (map byteOfN ds) = ds.
Proof.
  induction 1 as [|d ds Hd _ IH]; [reflexivity|].
  cbn [map]. now rewrite to_N_byteOfN, IH.
Qed.

Lemma bytes_lt_256 (bytes : list byte) :
  Forall (fun d => d < 256)%N (map Byte.to_N bytes).
Proof.
  apply Forall_forall. intros d Hd. apply in_map_iff in Hd as (x & <- & _).
  pose proof (Byte.to_N_bounded x). lia.
Qed.

Lemma digit_symbol_nat (n : nat) :
  n < 58 -> digit (symbol (N.of_nat n)) = Some (N.of_nat n).
Proof. do 58 (destruct n as [|n]; [reflexivity|]). lia. Qed.

Lemma digit_symbol (d : N) : (d < 58)%N -> digit (symbol d) = Some d.
Proof.
  intros H. rewrite <- (N2Nat.id d). apply digit_symbol_nat. lia.
Qed.

Lemma indexOf_get (c : ascii) (s : string) (d : N) :
  indexOf c s = Some d ->
  String.get (N.to_nat d) s = Some c /\ N.to_nat d < String.length s.
Proof.
  revert d. induction s as [|c' s IH]; intros d; cbn [indexOf]; [discriminate|].
  destruct (Ascii.eqb_spec c c') as [->|NE].
  - intros [= <-]. simpl. split; [reflexivity | lia].
  - destruct (indexOf c s) as [d'|]; [|discriminate].
    intros [= <-]. destruct (IH d' eq_refl) as [G L].
    rewrite N2Nat.inj_succ. simpl. split; [exact G | lia].
Qed.

Lemma symbol_digit (c : ascii) (d : N) :
  digit c = Some d -> symbol d = c /\ (d < 58)%N.
Proof.
  intros H. apply indexOf_get in H as [G L].
  unfold symbol. rewrite G. split; [reflexivity|].
  change (String.length alphabet) with 58 in L. lia.
Qed.

Lemma digits_map_symbol (ds : list N) :
  Forall (fun d => d < 58)%N ds -> digits (map symbol ds) = Some ds.
Proof.
  induction 1 as [|d ds Hd _ IH]; [reflexivity|].
  cbn [map digits]. now rewrite digit_symbol, IH.
Qed.

Lemma digits_sound (l : list ascii) (ds : list N) :
  digits l = Some ds -> map symbol ds = l /\ Forall (fun d => d < 58)%N ds.
Proof.
  revert ds. induction l as [|c l IH]; intros ds; cbn [digits].
  - intros [= <-]. split; [reflexivity | constructor].
  - destruct (digit c) as [d|] eqn:Ec; [|discriminate].
    destruct (digits l) as [ds'|]; [|discriminate].
    intros [= <-]. destruct (IH ds' eq_refl) as [M F].
    apply symbol_digit in Ec as [S L].
    cbn [map]. rewrite S, M. split; [reflexivity | now constructor].
Qed.

(** Decoding undoes encoding. *)
Theorem bs58_decode_encode (bytes : list byte) :
  bs58_decode (bs58_encode bytes) = Some bytes.
Proof.
  unfold bs58_decode, bs58_encode.
  rewrite list_ascii_of_string_of_list_ascii.
  rewrite digits_map_symbol by (apply convert_lt; lia).
  rewrite convert_inverse by (lia || apply bytes_lt_256).
  now rewrite map_byteOfN_to_N.
Qed.

(** Encoding undoes decoding: an address text is the only text of its
    bytes. *)
Theorem bs58_encode_decode (str : string) (bytes : list byte) :
  bs58_decode str = Some bytes -> bs58_encode bytes = str.
Proof.
  unfold bs58_decode, bs58_encode.
  destruct (digits (list_ascii_of_string str)) as [ds|] eqn:E; [|discriminate].
  intros [= <-]. apply digits_sound in E as [M F].
  rewrite map_to_N_byteOfN by (apply convert_lt; lia).
  rewrite convert_inverse by (lia || assumption).
  rewrite M. apply string_of_list_ascii_of_string.
Qed.


Lemma bs58_encode_truthy (bytes : list byte) :
  bytes <> [] -> truthy (bs58_encode bytes) = true.
Proof.
  intros NE. destruct (bs58_encode bytes) eqn:E; [|reflexivity].
  pose proof (bs58_decode_encode bytes) as D. rewrite E in D.
  cbv in D. congruence.
Qed.

(** ** Hex text of the module's slices *)

Lemma hex_slice_to_8 (bytes : list byte) :
  sliceString (encodeBase16 bytes) 0 (Some 8%Z) = encodeBase16 (firstn 4 bytes).
Proof.
  rewrite <- (slice_to bytes 4). exact (sliceString_encodeBase16 bytes 0 (Some 4%Z)).
Qed.

Lemma hex_slice_drop_8 (bytes : list byte) :
  sliceString (encodeBase16 bytes) 0 (Some (-8)%Z)
  = encodeBase16 (slice bytes 0 (Some (-4)%Z)).
Proof. exact (sliceString_encodeBase16 bytes 0 (Some (-4)%Z)). Qed.

Lemma hex_slice_last_8 (bytes : list byte) :
  sliceString (encodeBase16 bytes) (-8) None
  = encodeBase16 (slice bytes (-4) None).
Proof. exact (sliceString_encodeBase16 bytes (-4) None). Qed.

Lemma hex_slice_last_40 (bytes : list byte) :
  sliceString (encodeBase16 bytes) (-40) None
  = encodeBase16 (slice bytes (-20) None).
Proof. exact (sliceString_encodeBase16 bytes (-20) None). Qed.

Lemma payload_hex (hash : list byte) :
  (coinId prefix ++ version prefix ++ encodeBase16 hash)%string
  = encodeBase16 ([x00; x00; x00] ++ [x00] ++ hash).
Proof. reflexivity. Qed.

(** ** The module at the level of bytes *)

Section RevAddressFacts.

Context {sha3 : JsSha3} {blake : BlakeJs} {secp256k1 : EllipticEc}
        {bip39 : Bip39} {hdkey : HdKey}.

Lemma strip0x_encodeBase16 (bytes : list byte) :
  strip0x (encodeBase16 bytes) = encodeBase16 bytes.
Proof. apply lowerHex_no_prefix, lowerHex_encodeBase16. Qed.

(** [getAddrFromEth] computes the address of the specification. *)
Lemma getAddrFromEth_bytes (ethAddrRaw : string) :
  getAddrFromEth ethAddrRaw
  = if badLength (strip0x ethAddrRaw) 40 then None
    else Some (specAddrFromEth (decodeBase16 (strip0x ethAddrRaw))).
Proof.
  unfold getAddrFromEth, specAddrFromEth, encodeBase58, keccak256, blake2bHex.
  destruct (badLength (strip0x ethAddrRaw) 40); [reflexivity|].
  rewrite payload_hex, decodeBase16_encodeBase16, hex_slice_to_8.
  rewrite <- encodeBase16_app, decodeBase16_encodeBase16. reflexivity.
Qed.

Lemma specAddrFromEth_truthy (ethBytes : list byte) :
  truthy (specAddrFromEth ethBytes) = true.
Proof. apply bs58_encode_truthy. discriminate. Qed.

Lemma getAddrFromEth_truthy (ethAddrRaw revAddr : string) :
  getAddrFromEth ethAddrRaw = Some revAddr -> truthy revAddr = true.
Proof.
  rewrite getAddrFromEth_bytes. destruct (badLength _ _); [discriminate|].
  intros [= <-]. apply specAddrFromEth_truthy.
Qed.

Lemma getAddrFromPublicKey_bytes (publicKeyRaw : string) :
  getAddrFromPublicKey publicKeyRaw
  = if badLength (strip0x publicKeyRaw) 130 then None
    else
      let eth := ethBytesOfPublic (strip0x publicKeyRaw) in
      if badLength (encodeBase16 eth) 40 then None
      else Some {| revAddr := Some (specAddrFromEth eth);
                   ethAddr := Some (encodeBase16 eth);
                   pubKey := None; privKey := None; mnemonic := None |}.
Proof.
  unfold getAddrFromPublicKey, keccak256.
  destruct (badLength (strip0x publicKeyRaw) 130); [reflexivity|].
  rewrite hex_slice_last_40. fold (ethBytesOfPublic (strip0x publicKeyRaw)).
  cbv zeta. rewrite getAddrFromEth_bytes, strip0x_encodeBase16.
  destruct (badLength _ 40); [reflexivity|].
  now rewrite decodeBase16_encodeBase16, specAddrFromEth_truthy.
Qed.

Lemma getAddrFromPrivateKey_bytes (privateKeyRaw : string) :
  getAddrFromPrivateKey privateKeyRaw
  = if badLength (strip0x privateKeyRaw) 64 then None
    else
      let pub := getPublic_hex (keyFromPrivate (strip0x privateKeyRaw)) in
      if badLength pub 130 then None
      else
        let eth := ethBytesOfPublic pub in
        if badLength (encodeBase16 eth) 40 then None
        else Some {| revAddr := Some (specAddrFromEth eth);
                     ethAddr := Some (encodeBase16 eth);
                     pubKey := Some pub; privKey := None; mnemonic := None |}.
Proof.
  unfold getAddrFromPrivateKey.
  destruct (badLength (strip0x privateKeyRaw) 64); [reflexivity|].
  cbv zeta. rewrite getAddrFromPublicKey_bytes.
  unfold getPublic_hex at 1 2. rewrite strip0x_encodeBase16.
  fold (getPublic_hex (keyFromPrivate (strip0x privateKeyRaw))).
  destruct (badLength _ 130); [reflexivity|].
  cbv zeta. destruct (badLength _ 40); reflexivity.
Qed.

(** [verifyRevAddr] compares the last four decoded bytes with the first four
    bytes of the Blake2b digest of the bytes before them. *)
Lemma verifyRevAddr_bytes (addr : string) :
  verifyRevAddr addr = true <->
  exists revBytes,
    decodeBase58safe addr = Some revBytes /\
    slice revBytes (-4) None
    = firstn 4 (blake2b (slice revBytes 0 (Some (-4)%Z)) None 32).
Proof.
  unfold verifyRevAddr, blake2bHex.
  destruct (decodeBase58safe addr) as [revBytes|].
  - rewrite hex_slice_drop_8, hex_slice_last_8, decodeBase16_encodeBase16,
      hex_slice_to_8, String.eqb_eq.
    split.
    + intros E. exists revBytes. split; [reflexivity | now apply encodeBase16_inj].
    + intros (B & [= <-] & E). now rewrite E.
  - split; [discriminate | intros (B & [=] & _)].
Qed.

Lemma slice_app_drop {A} (l1 l2 : list A) (k : nat) :
  List.length l2 = k -> k <> 0 ->
  slice (l1 ++ l2) 0 (Some (- Z.of_nat k)%Z) = l1.
Proof.
  intros <- NE. rewrite slice_drop_last by assumption.
  rewrite length_app, Nat.add_sub, firstn_app, Nat.sub_diag, firstn_all.
  simpl. apply app_nil_r.
Qed.

Lemma slice_app_last {A} (l1 l2 : list A) (k : nat) :
  List.length l2 = k -> k <> 0 ->
  slice (l1 ++ l2) (- Z.of_nat k)%Z None = l2.
Proof.
  intros <- NE. rewrite slice_last by assumption.
  rewrite length_app, Nat.add_sub, skipn_app, Nat.sub_diag, skipn_all.
  reflexivity.
Qed.

(** An address made of a payload and its checksum verifies. *)
Lemma verifyRevAddr_encoded (payload : list byte) :
  ChecksumLength blake ->
  verifyRevAddr (bs58_encode (payload ++ firstn 4 (blake2b payload None 32)))
  = true.
Proof.
  intros Hlen. apply verifyRevAddr_bytes.
  set (checksum := firstn 4 (blake2b payload None 32)).
  assert (L : List.length checksum = 4).
  { unfold checksum. rewrite length_firstn, Hlen. reflexivity. }
  exists (payload ++ checksum). split; [apply bs58_decode_encode|].
  change (-4)%Z with (- Z.of_nat 4)%Z.
  rewrite (slice_app_last payload checksum 4 L) by discriminate.
  rewrite (slice_app_drop payload checksum 4 L) by discriminate.
  reflexivity.
Qed.

Lemma ethBytes_length (publicKey : string) :
  DigestLength sha3 -> List.length (ethBytesOfPublic publicKey) = 20.
Proof.
  intros Hlen. unfold ethBytesOfPublic.
  change (-20)%Z with (- Z.of_nat 20)%Z. rewrite slice_last by discriminate.
  rewrite length_skipn, Hlen. reflexivity.
Qed.

Lemma validPrivateKey_length (priv : string) :
  Secp256k1.validPrivateKey priv = true -> String.length priv = 64.
Proof.
  unfold Secp256k1.validPrivateKey. intros H.
  repeat (apply andb_true_iff in H as [H _]). now apply Nat.eqb_eq.
Qed.

(** A valid private key yields the full record of derived fields. *)
Lemma getAddrFromPrivateKey_valid (privateKeyRaw : string) :
  DigestLength sha3 -> PublicKeyUncompressed secp256k1 ->
  Secp256k1.validPrivateKey (strip0x privateKeyRaw) = true ->
  let pub := getPublic_hex (keyFromPrivate (strip0x privateKeyRaw)) in
  let eth := ethBytesOfPublic pub in
  getAddrFromPrivateKey privateKeyRaw
  = Some {| revAddr := Some (specAddrFromEth eth);
            ethAddr := Some (encodeBase16 eth);
            pubKey := Some pub; privKey := None; mnemonic := None |}.
Proof.
  intros Hsha Hec Hvalid pub eth. rewrite getAddrFromPrivateKey_bytes.
  rewrite badLength_false
    by (try apply validPrivateKey_length; assumption || discriminate).
  cbv zeta. fold pub. fold eth.
  rewrite (badLength_false pub 130); [|unfold pub, getPublic_hex|discriminate].
  - rewrite badLength_false; [reflexivity | | discriminate].
    rewrite length_encodeBase16. unfold eth. now rewrite ethBytes_length.
  - rewrite length_encodeBase16, Hec by assumption. reflexivity.
Qed.

Lemma orElse_None_r {A} (o : option A) : orElse o None = o.
Proof. now destruct o. Qed.

Lemma getAddrFromPublicKey_fields (raw : string) (a : RevAddress) :
  getAddrFromPublicKey raw = Some a ->
  pubKey a = None /\ privKey a = None /\ mnemonic a = None
  /\ present (revAddr a) = true /\ present (ethAddr a) = true
  /\ canonicalField (ethAddr a) = true.
Proof.
  rewrite getAddrFromPublicKey_bytes.
  destruct (badLength _ 130); [discriminate|]. cbv zeta.
  destruct (badLength _ 40); [discriminate|]. intros [= <-]. cbn.
  now rewrite canonicalHex_encodeBase16.
Qed.

Lemma getAddrFromPrivateKey_fields (raw : string) (a : RevAddress) :
  getAddrFromPrivateKey raw = Some a ->
  privKey a = None /\ mnemonic a = None
  /\ present (revAddr a) = true /\ present (ethAddr a) = true
  /\ present (pubKey a) = true
  /\ canonicalField (ethAddr a) = true /\ canonicalField (pubKey a) = true.
Proof.
  rewrite getAddrFromPrivateKey_bytes.
  destruct (badLength _ 64); [discriminate|]. cbv zeta.
  destruct (badLength _ 130); [discriminate|].
  destruct (badLength _ 40); [discriminate|]. intros [= <-]. cbn.
  unfold getPublic_hex. now rewrite !canonicalHex_encodeBase16.
Qed.

(** [parseRevAddress] as a chain of choices on the four interpretations of
    the trimmed text, with each result record written out. *)
Lemma parseRevAddress_chain (text : string) :
  let val := trim (strip0x text) in
  parseRevAddress text
  = if verifyRevAddr val then
      Some {| revAddr := Some text; ethAddr := None; pubKey := None;
              privKey := None; mnemonic := None |}
    else
      match getAddrFromPrivateKey val with
      | Some a =>
          Some {| revAddr := revAddr a; ethAddr := ethAddr a;
                  pubKey := pubKey a; privKey := Some val; mnemonic := None |}
      | None =>
          match getAddrFromPublicKey val with
          | Some a =>
              Some {| revAddr := revAddr a; ethAddr := ethAddr a;
                      pubKey := Some val; privKey := None; mnemonic := None |}
          | None =>
              match getAddrFromEth val with
              | Some addr =>
                  Some {| revAddr := Some addr; ethAddr := Some val;
                          pubKey := None; privKey := None; mnemonic := None |}
              | None => None
              end
          end
      end.
Proof.
  cbv zeta. unfold parseRevAddress.
  destruct (verifyRevAddr _); [reflexivity|].
  destruct (getAddrFromPrivateKey _) as [a|] eqn:Epriv.
  { destruct (getAddrFromPrivateKey_fields _ _ Epriv) as (P & M & _).
    unfold spread. cbn. now rewrite P, M, !orElse_None_r. }
  destruct (getAddrFromPublicKey _) as [a|] eqn:Epub.
  { destruct (getAddrFromPublicKey_fields _ _ Epub) as (P & K & M & _).
    unfold spread. cbn. now rewrite P, K, M, !orElse_None_r. }
  destruct (getAddrFromEth _) as [addr|] eqn:Eeth; [|reflexivity].
  now rewrite (getAddrFromEth_truthy _ _ Eeth).
Qed.

(** The record of a wallet made from a mnemonic phrase and its private key. *)
Lemma wallet_fields (phrase key : string) (addr : option RevAddress) (w : RevAddress) :
  addr = getAddrFromPrivateKey key ->
  w = spreadMaybe {| revAddr := None; ethAddr := None; pubKey := None;
                     privKey := Some key; mnemonic := Some phrase |} addr ->
  mnemonic w = Some phrase /\ privKey w = Some key
  /\ canonicalField (pubKey w) = true /\ canonicalField (ethAddr w) = true
  /\ (addr <> None -> complete w = true).
Proof.
  intros E ->. destruct addr as [a|]; cbn.
  - symmetry in E.
    destruct (getAddrFromPrivateKey_fields _ _ E) as (P & M & R & Et & Pu & C1 & C2).
    rewrite P, M, !orElse_None_r. repeat split; try assumption.
    intros _. unfold complete. cbn. now rewrite P, M, !orElse_None_r, R, Et, Pu.
  - repeat split. congruence.
Qed.



End RevAddressFacts.

(* ------------------------------------------------------------------------- *)
(** * The implementations meet what the module relies on *)

Lemma jsSha3_digestLength : DigestLength jsSha3.
Proof.
  intros message.
  change (keccak256_array message) with (Keccak.keccak256 message).
  unfold Keccak.keccak256. now rewrite length_map, length_seq.
Qed.

Lemma blakejs_checksumLength : ChecksumLength blakejs.
Proof.
  intros input.
  change (blake2b input None 32) with (Blake2b.blake2b input None 32).
  unfold Blake2b.blake2b, Blake2b.blake2bFinal.
  now rewrite length_map, length_seq.
Qed.

Lemma length_bytes32 (v : Z) : List.length (Secp256k1.bytes32 v) = 32.
Proof. unfold Secp256k1.bytes32. now rewrite length_map, length_seq. Qed.

Lemma elliptic_uncompressed : PublicKeyUncompressed elliptic.
Proof.
  intros priv _.
  change (getPublic_array (keyFromPrivate priv))
    with (Secp256k1.getPublic (Secp256k1.keyFromPrivate priv)).
  unfold Secp256k1.getPublic.
  destruct (Secp256k1.mul _ _); cbn [List.length];
    now rewrite length_app, !length_bytes32.
Qed.

Lemma sample_generatedValid : GeneratedMnemonicValid Sample.bip39.
Proof.
  intros entropy.
  change (validateMnemonic (generateMnemonic entropy))
    with (Sample.wellFormed (Sample.phrase entropy)).
  unfold Sample.wellFormed, Sample.phrase.
  rewrite length_encodeBase16, length_firstn, length_app, repeat_length.
  replace (2 * Nat.min 16 (List.length entropy + 16)) with 32 by lia.
  apply (lowerHex_encodeBase16 (firstn 16 (entropy ++ repeat x00 16))).
Qed.

Lemma sample_keyPresent : DerivedKeyPresent Sample.hdkey.
Proof. intros seed path. discriminate. Qed.

Lemma sample_keyValid : DerivedKeyValid Sample.hdkey.
Proof.
  intros seed path key. cbn [privateKey derive fromMasterSeed Sample.hdkey].
  generalize (Blake2b.blake2b (seed ++ list_byte_of_string path) None 32).
  intros node [= <-]. destruct node as [|b0 node]; [reflexivity|].
  unfold Sample.nodeKey. destruct (N.even (Byte.to_N b0)); reflexivity.
Qed.

(* ------------------------------------------------------------------------- *)
(** * The claims *)

Section Claims.

Context {sha3 : JsSha3} {blake : BlakeJs} {secp256k1 : EllipticEc}
        {bip39 : Bip39} {hdkey : HdKey}.

(** C1.  For every text that, after an optional ["0x"] is stripped, is a valid
    secp256k1 private key of 64 hexadecimal characters,
    [getAddrFromPrivateKey] returns a record (never none), and
    [verifyRevAddr] returns [true] on that record's [revAddr]. *)
Theorem private_key_address_verifies (privateKeyRaw : string) :
  DigestLength sha3 -> ChecksumLength blake ->
  PublicKeyUncompressed secp256k1 ->
  Secp256k1.validPrivateKey (strip0x privateKeyRaw) = true ->
  exists r addr,
    getAddrFromPrivateKey privateKeyRaw = Some r /\
    revAddr r = Some addr /\
    verifyRevAddr addr = true.
Proof.
  intros Hsha Hblake Hec Hvalid.
  pose proof (getAddrFromPrivateKey_valid _ Hsha Hec Hvalid) as E.
  cbv zeta in E. eexists. eexists. split; [exact E|].
  split; [reflexivity|]. now apply verifyRevAddr_encoded.
Qed.

(** C2.  For every input that, after an optional ["0x"] is stripped, is exactly
    40 hexadecimal characters, [getAddrFromEth] returns the base58 text of
    [payload ++ checksum], where [payload] is the 3-byte coin id [000000], the
    1-byte version [00] and the 32-byte Keccak-256 digest of the decoded input
    bytes, and [checksum] is the first 4 bytes of the Blake2b-256 digest of
    the payload bytes. *)
Theorem getAddrFromEth_payload_checksum (ethAddrRaw : string) :
  DigestLength sha3 -> ChecksumLength blake ->
  String.length (strip0x ethAddrRaw) = 40 ->
  isHex (strip0x ethAddrRaw) = true ->
  let ethBytes := decodeBase16 (strip0x ethAddrRaw) in
  let hash := keccak256_array ethBytes in
  let payload := [x00; x00; x00] ++ [x00] ++ hash in
  let checksum := firstn 4 (blake2b payload None 32) in
  getAddrFromEth ethAddrRaw = Some (bs58_encode (payload ++ checksum))
  /\ List.length hash = 32 /\ List.length checksum = 4.
Proof.
  intros Hsha Hblake Hlen _. cbv zeta.
  rewrite getAddrFromEth_bytes, badLength_false by (assumption || discriminate).
  split; [reflexivity|]. split; [apply Hsha|].
  rewrite length_firstn, Hblake. reflexivity.
Qed.


(** C4.  For every wallet [w] that [newRevAddress] returns,
    [revAddressFromMnemonic] on the mnemonic of [w] returns a record equal to
    [w] in every field. *)
Theorem restore_generated_wallet (entropy : list byte) (w : RevAddress) :
  GeneratedMnemonicValid bip39 ->
  newRevAddress entropy = Normal w ->
  exists phrase,
    mnemonic w = Some phrase /\ revAddressFromMnemonic phrase = Normal w.
Proof.
  intros Hgen Hnew. exists (generateMnemonic entropy).
  unfold revAddressFromMnemonic. rewrite Hgen. cbn [negb].
  unfold newRevAddress in Hnew.
  destruct (privKeyFromMnemonic (generateMnemonic entropy)) as [key|message];
    [|discriminate].
  split; [|exact Hnew]. injection Hnew as <-.
  now apply (wallet_fields _ key (getAddrFromPrivateKey key)).
Qed.

(** C5.  [revAddressFromMnemonic] raises an error if and only if the phrase
    fails BIP-39 validation, the message then being exactly
    ["Invalid BIP-39 mnemonic"]; on a valid phrase it returns a record
    without raising. *)
Theorem revAddressFromMnemonic_raises (phrase : string) :
  DerivedKeyPresent hdkey ->
  (forall message,
      revAddressFromMnemonic phrase = Throw message <->
      validateMnemonic phrase = false /\ message = "Invalid BIP-39 mnemonic")
  /\ (validateMnemonic phrase = true ->
      exists r, revAddressFromMnemonic phrase = Normal r).
Proof.
  intros Hkey. unfold revAddressFromMnemonic, privKeyFromMnemonic.
  destruct (validateMnemonic phrase); cbn [negb].
  - destruct (privateKey _) as [key|] eqn:E; [|now apply Hkey in E].
    split.
    + intros message. split; [discriminate | intros [H _]; discriminate H].
    + intros _. eexists. reflexivity.
  - split.
    + intros message. split.
      * intros [= <-]. now split.
      * now intros [_ ->].
    + discriminate.
Qed.

(** C6, as amended.  In every record returned by [getAddrFromPublicKey],
    [getAddrFromPrivateKey], [newRevAddress] and [revAddressFromMnemonic]
    every hex-valued field ([privKey], [pubKey], [ethAddr]) is lower-case and
    without ["0x"]; in a record returned by [parseRevAddress] this holds of
    every hex-valued field that the module derives, while the field filled
    with the caller's own text holds that text as trimmed, in the caller's
    letter case. *)
Theorem derived_hex_fields_canonical :
  (forall raw r, getAddrFromPublicKey raw = Some r ->
                 hexFieldsCanonical r = true)
  /\ (forall raw r, getAddrFromPrivateKey raw = Some r ->
                    hexFieldsCanonical r = true)
  /\ (forall entropy r, newRevAddress entropy = Normal r ->
                        hexFieldsCanonical r = true)
  /\ (forall phrase r, revAddressFromMnemonic phrase = Normal r ->
                       hexFieldsCanonical r = true)
  /\ (forall text r,
        parseRevAddress text = Some r ->
        let val := trim (strip0x text) in
        (privKey r = None /\ pubKey r = None /\ ethAddr r = None)
        \/ (privKey r = Some val /\ canonicalField (pubKey r) = true
            /\ canonicalField (ethAddr r) = true)
        \/ (privKey r = None /\ pubKey r = Some val
            /\ canonicalField (ethAddr r) = true)
        \/ (privKey r = None /\ pubKey r = None /\ ethAddr r = Some val)).
Proof.
  assert (Wallet : forall phrase r,
             match privKeyFromMnemonic phrase with
             | Throw message => Throw message
             | Normal key =>
                 Normal (spreadMaybe
                           {| revAddr := None; ethAddr := None; pubKey := None;
                              privKey := Some key; mnemonic := Some phrase |}
                           (getAddrFromPrivateKey key))
             end = Normal r ->
             hexFieldsCanonical r = true).
  { intros phrase r. unfold privKeyFromMnemonic.
    destruct (privateKey _) as [k|]; [|discriminate]. intros [= <-].
    destruct (wallet_fields phrase (toString_hex k) _ _ eq_refl eq_refl)
      as (_ & K & P & E & _).
    unfold hexFieldsCanonical. rewrite K, P, E. cbn.
    unfold toString_hex. now rewrite canonicalHex_encodeBase16. }
  repeat split.
  - intros raw r H.
    destruct (getAddrFromPublicKey_fields _ _ H) as (P & K & _ & _ & _ & E).
    unfold hexFieldsCanonical. now rewrite P, K, E.
  - intros raw r H.
    destruct (getAddrFromPrivateKey_fields _ _ H) as (K & _ & _ & _ & _ & E & P).
    unfold hexFieldsCanonical. now rewrite P, K, E.
  - intros entropy r. apply Wallet.
  - intros phrase r. unfold revAddressFromMnemonic.
    destruct (negb _); [discriminate | apply Wallet].
  - intros text r. cbv zeta. rewrite parseRevAddress_chain. cbv zeta.
    destruct (verifyRevAddr _); [intros [= <-]; now left|].
    destruct (getAddrFromPrivateKey _) as [a|] eqn:Epriv.
    { intros [= <-]. right. left. cbn.
      now destruct (getAddrFromPrivateKey_fields _ _ Epriv)
        as (_ & _ & _ & _ & _ & E & P). }
    destruct (getAddrFromPublicKey _) as [a|] eqn:Epub.
    { intros [= <-]. right. right. left. cbn.
      now destruct (getAddrFromPublicKey_fields _ _ Epub)
        as (_ & _ & _ & _ & _ & E). }
    destruct (getAddrFromEth _) as [addr|]; [|discriminate].
    intros [= <-]. right. right. right. now cbn.
Qed.

(** C7.  Inputs one character short or long of the required length, counted
    after an optional ["0x"] is stripped, are rejected with an absent result:
    lengths 39 and 41 by [getAddrFromEth], 63 and 65 by
    [getAddrFromPrivateKey], 129 and 131 by [getAddrFromPublicKey]. *)
Theorem off_by_one_length_rejected (raw : string) :
  let n := String.length (strip0x raw) in
  (n = 39 \/ n = 41 -> getAddrFromEth raw = None)
  /\ (n = 63 \/ n = 65 -> getAddrFromPrivateKey raw = None)
  /\ (n = 129 \/ n = 131 -> getAddrFromPublicKey raw = None).
Proof.
  cbv zeta. repeat split; intros H.
  - unfold getAddrFromEth. rewrite badLength_true; [reflexivity | lia].
  - unfold getAddrFromPrivateKey. rewrite badLength_true; [reflexivity | lia].
  - unfold getAddrFromPublicKey. rewrite badLength_true; [reflexivity | lia].
Qed.

(** C8.  [newRevAddress] never returns a partial record: it returns a record
    with [mnemonic], [privKey], [pubKey], [ethAddr] and [revAddr] all
    present, or it raises; the address derivation from the private key of the
    mnemonic, whose result is cast unchecked, is never absent. *)
Theorem newRevAddress_all_or_nothing (entropy : list byte) :
  DigestLength sha3 -> PublicKeyUncompressed secp256k1 ->
  DerivedKeyValid hdkey ->
  ((exists w, newRevAddress entropy = Normal w /\ complete w = true)
   \/ (exists message, newRevAddress entropy = Throw message))
  /\ (forall key,
        privKeyFromMnemonic (generateMnemonic entropy) = Normal key ->
        getAddrFromPrivateKey key <> None).
Proof.
  intros Hsha Hec Hvalid.
  assert (Haddr : forall key,
             privKeyFromMnemonic (generateMnemonic entropy) = Normal key ->
             getAddrFromPrivateKey key <> None).
  { intros key. unfold privKeyFromMnemonic.
    destruct (privateKey _) as [k|] eqn:E; [|discriminate].
    intros [= <-]. apply Hvalid in E.
    rewrite getAddrFromPrivateKey_valid; try assumption; [discriminate|].
    unfold toString_hex in *. now rewrite strip0x_encodeBase16. }
  split; [|exact Haddr].
  unfold newRevAddress.
  destruct (privKeyFromMnemonic (generateMnemonic entropy)) as [key|message].
  - left. eexists. split; [reflexivity|].
    eapply wallet_fields; [reflexivity | reflexivity | now apply Haddr].
  - right. now exists message.
Qed.


(** C10.  For some input whose base58 decoding yields 4 or fewer bytes,
    [verifyRevAddr] returns [true]: the base58 text of the first 4 bytes of
    the Blake2b-256 digest of the empty byte string decodes to those 4 bytes,
    its payload slice is empty, and it is accepted. *)
Theorem checksum_of_nothing_verifies :
  ChecksumLength blake ->
  let addr := bs58_encode (firstn 4 (blake2b [] None 32)) in
  exists revBytes,
    decodeBase58safe addr = Some revBytes /\
    List.length revBytes <= 4 /\
    slice revBytes 0 (Some (-4)%Z) = [] /\
    verifyRevAddr addr = true.
Proof.
  intros Hlen addr.
  assert (L : List.length (firstn 4 (blake2b [] None 32)) = 4)
    by (rewrite length_firstn, Hlen; reflexivity).
  exists (firstn 4 (blake2b [] None 32)).
  split; [apply bs58_decode_encode|]. split; [lia|]. split.
  - change (-4)%Z with (- Z.of_nat 4)%Z.
    rewrite slice_drop_last, L by discriminate. reflexivity.
  - exact (verifyRevAddr_encoded [] Hlen).
Qed.


(** Text that does not decode as base58 is not a valid address. *)
Theorem undecodable_text_rejected (addr : string) :
  decodeBase58safe addr = None -> verifyRevAddr addr = false.
Proof. intros H. unfold verifyRevAddr. now rewrite H. Qed.

End Claims.

(* ------------------------------------------------------------------------- *)
(** * The claims on concrete inputs *)

(** The functions below run with Keccak-256, Blake2b and secp256k1 as
    defined above; the wallet functions also with the stand-ins of
    [Sample]. *)

(** The private key 1 and the address it yields. *)
Lemma private_key_address_verifies_witness :
  let key := "0x0000000000000000000000000000000000000000000000000000000000000001" in
  Secp256k1.validPrivateKey (strip0x key) = true /\
  exists r addr,
    getAddrFromPrivateKey (sha3 := jsSha3) (blake := blakejs)
                          (secp256k1 := elliptic) key = Some r /\
    revAddr r = Some addr /\
    verifyRevAddr (blake := blakejs) addr = true.
Proof.
  cbv zeta. split; [vm_compute; reflexivity|].
  apply (private_key_address_verifies
           (sha3 := jsSha3) (blake := blakejs) (secp256k1 := elliptic)).
  - exact jsSha3_digestLength.
  - exact blakejs_checksumLength.
  - exact elliptic_uncompressed.
  - vm_compute; reflexivity.
Defined.

(** The all-zero ETH address. *)
Lemma getAddrFromEth_payload_checksum_witness :
  let raw := "0x0000000000000000000000000000000000000000" in
  String.length (strip0x raw) = 40 /\ isHex (strip0x raw) = true /\
  let ethBytes := decodeBase16 (strip0x raw) in
  let hash := keccak256_array (JsSha3 := jsSha3) ethBytes in
  let payload := [x00; x00; x00] ++ [x00] ++ hash in
  let checksum := firstn 4 (blake2b (BlakeJs := blakejs) payload None 32) in
  getAddrFromEth (sha3 := jsSha3) (blake := blakejs) raw
  = Some (bs58_encode (payload ++ checksum))
  /\ List.length hash = 32 /\ List.length checksum = 4.
Proof.
  cbv zeta. split; [reflexivity|]. split; [reflexivity|].
  apply (getAddrFromEth_payload_checksum (sha3 := jsSha3) (blake := blakejs)).
  - exact jsSha3_digestLength.
  - exact blakejs_checksumLength.
  - reflexivity.
  - reflexivity.
Defined.


(** One character short of each required length. *)
Lemma off_by_one_length_rejected_witness :
  getAddrFromEth (sha3 := jsSha3) (blake := blakejs)
                 "0x000000000000000000000000000000000000000" = None
  /\ getAddrFromPrivateKey (sha3 := jsSha3) (blake := blakejs)
                           (secp256k1 := elliptic)
        "00000000000000000000000000000000000000000000000000000000000000001"
      = None.
Proof.
  split.
  - destruct (off_by_one_length_rejected
                (sha3 := jsSha3) (blake := blakejs) (secp256k1 := elliptic)
                "0x000000000000000000000000000000000000000") as (H & _ & _).
    apply H. left. reflexivity.
  - destruct (off_by_one_length_rejected
                (sha3 := jsSha3) (blake := blakejs) (secp256k1 := elliptic)
                "00000000000000000000000000000000000000000000000000000000000000001")
      as (_ & H & _).
    apply H. right. reflexivity.
Defined.

Lemma restore_generated_wallet_witness :
  newRevAddress (sha3 := jsSha3) (blake := blakejs) (secp256k1 := elliptic)
                (bip39 := Sample.bip39) (hdkey := Sample.hdkey) [x01; x02]
  = Normal Sample.wallet /\
  exists phrase,
    mnemonic Sample.wallet = Some phrase /\
    revAddressFromMnemonic
      (sha3 := jsSha3) (blake := blakejs) (secp256k1 := elliptic)
      (bip39 := Sample.bip39) (hdkey := Sample.hdkey) phrase
    = Normal Sample.wallet.
Proof.
  split; [vm_compute; reflexivity|].
  apply (restore_generated_wallet
           (sha3 := jsSha3) (blake := blakejs) (secp256k1 := elliptic)
           (bip39 := Sample.bip39) (hdkey := Sample.hdkey) [x01; x02]).
  - exact sample_generatedValid.
  - vm_compute; reflexivity.
Defined.

(** The phrase of the module's own test. *)
Lemma revAddressFromMnemonic_raises_witness :
  revAddressFromMnemonic
    (sha3 := jsSha3) (blake := blakejs) (secp256k1 := elliptic)
    (bip39 := Sample.bip39) (hdkey := Sample.hdkey) "foo bar baz"
  = Throw "Invalid BIP-39 mnemonic".
Proof.
  destruct (revAddressFromMnemonic_raises
              (sha3 := jsSha3) (blake := blakejs) (secp256k1 := elliptic)
              (bip39 := Sample.bip39) (hdkey := Sample.hdkey) "foo bar baz"
              sample_keyPresent) as (H & _).
  apply H. split; reflexivity.
Defined.

Lemma newRevAddress_all_or_nothing_witness :
  (exists w,
      newRevAddress (sha3 := jsSha3) (blake := blakejs) (secp256k1 := elliptic)
                    (bip39 := Sample.bip39) (hdkey := Sample.hdkey) [x01; x02]
      = Normal w /\ complete w = true)
  \/ (exists message,
         newRevAddress (sha3 := jsSha3) (blake := blakejs)
                       (secp256k1 := elliptic) (bip39 := Sample.bip39)
                       (hdkey := Sample.hdkey) [x01; x02]
         = Throw message).
Proof.
  apply (newRevAddress_all_or_nothing
           (sha3 := jsSha3) (blake := blakejs) (secp256k1 := elliptic)
           (bip39 := Sample.bip39) (hdkey := Sample.hdkey) [x01; x02]).
  - exact jsSha3_digestLength.
  - exact elliptic_uncompressed.
  - exact sample_keyValid.
Defined.

(** C6, the claim as stated, fails: an ETH address typed in upper case comes
    back in upper case. *)
Lemma parseRevAddress_keeps_upper_case :
  let r := {| revAddr := Some "11112eRT7Zn1VqDdjKRmoS4rrdk7BA1pq64uVd5WxCwa1uyqXFXHei";
              ethAddr := Some "0A00000000000000000000000000000000000000";
              pubKey := None; privKey := None; mnemonic := None |} in
  parseRevAddress (sha3 := jsSha3) (blake := blakejs) (secp256k1 := elliptic)
                  "0A00000000000000000000000000000000000000"
  = Some r
  /\ hexFieldsCanonical r = false.
Proof. cbv zeta. split; vm_compute; reflexivity. Qed.



(** With Blake2b itself the text is ["NGA4f"]. *)
Lemma checksum_of_nothing_verifies_witness :
  exists revBytes,
    decodeBase58safe "NGA4f" = Some revBytes /\
    List.length revBytes <= 4 /\
    slice revBytes 0 (Some (-4)%Z) = [] /\
    verifyRevAddr (blake := blakejs) "NGA4f" = true.
Proof.
  assert (E : bs58_encode (firstn 4 (Blake2b.blake2b [] None 32)) = "NGA4f")
    by (vm_compute; reflexivity).
  rewrite <- E.
  exact (checksum_of_nothing_verifies (blake := blakejs) blakejs_checksumLength).
Defined.

(** The hex fields of a generated wallet are canonical. *)
Lemma derived_hex_fields_canonical_witness :
  hexFieldsCanonical Sample.wallet = true.
Proof.
  destruct (derived_hex_fields_canonical
              (sha3 := jsSha3) (blake := blakejs) (secp256k1 := elliptic)
              (bip39 := Sample.bip39) (hdkey := Sample.hdkey))
    as (_ & _ & H & _).
  apply (H [x01; x02]). vm_compute; reflexivity.
Defined.


(** A digit zero is not in the base58 alphabet. *)
Lemma undecodable_text_rejected_witness :
  verifyRevAddr (blake := blakejs) "0x7e5f4552091a69125d5dfcb7b8c2659029395bdf"
  = false.
Proof.
  apply (undecodable_text_rejected (blake := blakejs)). vm_compute; reflexivity.
Defined.

(** The address of the all-zero ETH address, a fixture that needs no
    randomness. *)
Example zero_address_fixture :
  getAddrFromEth (sha3 := jsSha3) (blake := blakejs)
                 "0000000000000000000000000000000000000000"
  = Some "1111dmyT6TSbyVRGx98srm5dbhQxzduoTAK3DNPSXM4swUBu9QgiV".
Proof. vm_compute; reflexivity. Qed.

(* ------------------------------------------------------------------------- *)
(** * Further properties of the module *)

(** ** Text that decodes as base58 *)

Lemma bs58_encode_inj (b1 b2 : list byte) :
  bs58_encode b1 = bs58_encode b2 -> b1 = b2.
Proof.
  intros E. pose proof (bs58_decode_encode b1) as D.
  rewrite E, bs58_decode_encode in D. congruence.
Qed.







Lemma has0x_undecodable (text : string) :
  has0x text = true -> decodeBase58safe text = None.
Proof.
  intros H. destruct text as [|c s]; [discriminate H|].
  destruct c as [[] [] [] [] [] [] [] []]; try discriminate H.
  reflexivity.
Qed.

Lemma strip0x_prefixed (s : string) : strip0x ("0x" ++ s)%string = s.
Proof. reflexivity. Qed.

Lemma strip0x_without_prefix (s : string) : has0x s = false -> strip0x s = s.
Proof.
  destruct s as [|c0 [|c1 s]]; intros H.
  - reflexivity.
  - destruct c0 as [[] [] [] [] [] [] [] []]; reflexivity.
  - destruct c0 as [[] [] [] [] [] [] [] []]; try reflexivity.
    destruct c1 as [[] [] [] [] [] [] [] []]; try reflexivity.
    discriminate H.
Qed.

Lemma badLength_length (s : string) (n : nat) :
  badLength s n = false -> String.length s = n.
Proof.
  unfold badLength. intros H. apply orb_false_iff in H as [_ H].
  apply negb_false_iff in H. now apply Nat.eqb_eq.
Qed.

Lemma app_same_length_inj {A} (a b c d : list A) :
  List.length a = List.length b -> a ++ c = b ++ d -> a = b.
Proof.
  revert b. induction a as [|x a IH]; intros [|y b] L E;
    try discriminate L; [reflexivity|].
  injection E as -> E. f_equal. apply IH; [now injection L | assumption].
Qed.

(** A leading zero byte is a leading ['1']. *)
Lemma bs58_encode_zero (bytes : list byte) :
  bs58_encode (x00 :: bytes) = String "1" (bs58_encode bytes).
Proof.
  unfold bs58_encode, convert.
  change (map Byte.to_N (x00 :: bytes)) with (0%N :: map Byte.to_N bytes).
  cbn [countLeading isZero N.eqb repeat app map string_of_list_ascii rev].
  change (rev (map Byte.to_N bytes) ++ [0%N])
    with (rev (map Byte.to_N bytes) ++ repeat 0%N 1).
  rewrite ofDigits_app_zeros by reflexivity. reflexivity.
Qed.

Section FurtherProperties.

Context {sha3 : JsSha3} {blake : BlakeJs} {secp256k1 : EllipticEc}
        {bip39 : Bip39} {hdkey : HdKey}.

(** ** [verifyRevAddr] *)

(** The texts that [verifyRevAddr] accepts are exactly the base58 texts of a
    payload followed by the first four bytes of its Blake2b-256 digest. *)
Theorem verifyRevAddr_accepts_exactly_checksummed (addr : string) :
  ChecksumLength blake ->
  verifyRevAddr addr = true <->
  exists payload,
    addr = bs58_encode (payload ++ firstn 4 (blake2b payload None 32)).
Proof.
  intros Hlen. split.
  - intros V. apply verifyRevAddr_bytes in V as (B & D & C).
    exists (slice B 0 (Some (-4)%Z)). rewrite <- C.
    change (-4)%Z with (- Z.of_nat 4)%Z.
    rewrite slice_split_last by discriminate.
    symmetry. now apply bs58_encode_decode.
  - intros (payload & ->). now apply verifyRevAddr_encoded.
Qed.

(** Text that decodes to fewer than four bytes is rejected: it cannot hold a
    checksum. *)
Theorem short_text_rejected (addr : string) (revBytes : list byte) :
  ChecksumLength blake ->
  decodeBase58safe addr = Some revBytes ->
  List.length revBytes < 4 ->
  verifyRevAddr addr = false.
Proof.
  intros Hlen D L.
  destruct (verifyRevAddr addr) eqn:V; [exfalso | reflexivity].
  apply verifyRevAddr_bytes in V as (B & D' & C).
  rewrite D in D'. injection D' as <-.
  apply (f_equal (@List.length byte)) in C.
  change (-4)%Z with (- Z.of_nat 4)%Z in C.
  rewrite slice_last, length_skipn, length_firstn, Hlen in C by discriminate.
  cbn in C. lia.
Qed.

(** ** The address chain *)

(** Every address that [getAddrFromEth] returns passes [verifyRevAddr],
    starts with ["1111"] (the four zero bytes of coin id and version) and
    decodes to 40 bytes. *)
Theorem getAddrFromEth_address_shape (ethAddrRaw addr : string) :
  DigestLength sha3 -> ChecksumLength blake ->
  getAddrFromEth ethAddrRaw = Some addr ->
  verifyRevAddr addr = true
  /\ (exists rest, addr = ("1111" ++ rest)%string)
  /\ (exists revBytes,
        decodeBase58safe addr = Some revBytes /\ List.length revBytes = 40).
Proof.
  intros Hsha Hblake. rewrite getAddrFromEth_bytes.
  destruct (badLength _ _); [discriminate|]. intros [= <-].
  unfold specAddrFromEth. split; [now apply verifyRevAddr_encoded|]. split.
  - cbn [app]. rewrite !bs58_encode_zero. eexists. reflexivity.
  - eexists. split; [apply bs58_decode_encode|].
    rewrite !length_app, length_firstn, Hsha, Hblake. reflexivity.
Qed.

(** Two inputs that [getAddrFromEth] maps to the same address have the same
    Keccak-256 digest: addresses collide only where Keccak does. *)
Theorem equal_addresses_equal_digests (raw1 raw2 addr : string) :
  DigestLength sha3 ->
  getAddrFromEth raw1 = Some addr -> getAddrFromEth raw2 = Some addr ->
  keccak256_array (decodeBase16 (strip0x raw1))
  = keccak256_array (decodeBase16 (strip0x raw2)).
Proof.
  intros Hsha. rewrite !getAddrFromEth_bytes.
  destruct (badLength (strip0x raw1) 40); [discriminate|].
  destruct (badLength (strip0x raw2) 40); [discriminate|].
  intros E1 E2.
  assert (E : specAddrFromEth (decodeBase16 (strip0x raw1))
              = specAddrFromEth (decodeBase16 (strip0x raw2))) by congruence.
  unfold specAddrFromEth in E. apply bs58_encode_inj in E.
  rewrite <- !app_assoc in E. do 2 apply app_inv_head in E.
  eapply app_same_length_inj; [|exact E]. now rewrite !Hsha.
Qed.

(** For a public key of 130 hexadecimal characters, [getAddrFromPublicKey]
    returns the ETH address that is the last 20 bytes of the Keccak-256 digest
    of the key without its first byte, as 40 lower-case hexadecimal
    characters, together with the address [getAddrFromEth] gives for it, and
    that address verifies. *)
Theorem getAddrFromPublicKey_derives_both (publicKeyRaw : string) :
  DigestLength sha3 -> ChecksumLength blake ->
  String.length (strip0x publicKeyRaw) = 130 ->
  isHex (strip0x publicKeyRaw) = true ->
  let keyBytes := decodeBase16 (strip0x publicKeyRaw) in
  let eth := encodeBase16 (skipn 12 (keccak256_array (skipn 1 keyBytes))) in
  exists addr,
    getAddrFromPublicKey publicKeyRaw
    = Some {| revAddr := Some addr; ethAddr := Some eth; pubKey := None;
              privKey := None; mnemonic := None |}
    /\ String.length eth = 40 /\ lowerHex eth = true
    /\ getAddrFromEth eth = Some addr
    /\ verifyRevAddr addr = true.
Proof.
  intros Hsha Hblake Hlen _. cbv zeta.
  assert (E : ethBytesOfPublic (strip0x publicKeyRaw)
              = skipn 12 (keccak256_array
                            (skipn 1 (decodeBase16 (strip0x publicKeyRaw))))).
  { unfold ethBytesOfPublic.
    replace (slice (decodeBase16 (strip0x publicKeyRaw)) 1 None)
      with (skipn 1 (decodeBase16 (strip0x publicKeyRaw)))
      by (symmetry; apply (slice_from _ 1)).
    change (-20)%Z with (- Z.of_nat 20)%Z.
    rewrite slice_last, Hsha by discriminate. reflexivity. }
  assert (L : String.length
                (encodeBase16 (ethBytesOfPublic (strip0x publicKeyRaw))) = 40).
  { now rewrite length_encodeBase16, ethBytes_length. }
  rewrite getAddrFromPublicKey_bytes.
  rewrite (badLength_false _ 130) by (assumption || discriminate).
  cbv zeta. rewrite (badLength_false _ 40 L) by discriminate.
  rewrite <- E. eexists. split; [reflexivity|].
  split; [exact L|]. split; [apply lowerHex_encodeBase16|].
  rewrite getAddrFromEth_bytes, strip0x_encodeBase16.
  rewrite (badLength_false _ 40 L) by discriminate.
  rewrite decodeBase16_encodeBase16. split; [reflexivity|].
  now apply verifyRevAddr_encoded.
Qed.

(** The record of a private key is consistent along the chain: its [pubKey]
    gives its [ethAddr] and [revAddr] through [getAddrFromPublicKey], and its
    [ethAddr] gives its [revAddr] through [getAddrFromEth]. *)
Theorem private_key_record_consistent (privateKeyRaw : string) (r : RevAddress) :
  getAddrFromPrivateKey privateKeyRaw = Some r ->
  exists pub eth addr,
    r = {| revAddr := Some addr; ethAddr := Some eth; pubKey := Some pub;
           privKey := None; mnemonic := None |}
    /\ getAddrFromPublicKey pub
       = Some {| revAddr := Some addr; ethAddr := Some eth; pubKey := None;
                 privKey := None; mnemonic := None |}
    /\ getAddrFromEth eth = Some addr.
Proof.
  rewrite getAddrFromPrivateKey_bytes.
  destruct (badLength _ 64); [discriminate|]. cbv zeta.
  destruct (badLength (getPublic_hex _) 130) eqn:Bpub; [discriminate|].
  destruct (badLength (encodeBase16 _) 40) eqn:Beth; [discriminate|].
  intros [= <-]. do 3 eexists. split; [reflexivity|]. split.
  - rewrite getAddrFromPublicKey_bytes.
    unfold getPublic_hex at 1 2. rewrite strip0x_encodeBase16.
    fold (getPublic_hex (keyFromPrivate (strip0x privateKeyRaw))).
    rewrite Bpub. cbv zeta. now rewrite Beth.
  - rewrite getAddrFromEth_bytes, strip0x_encodeBase16, Beth.
    now rewrite decodeBase16_encodeBase16.
Qed.

(** A ["0x"] in front of the input makes no difference to the three
    functions of the chain, as long as the input does not itself start with
    ["0x"]. *)
Theorem leading_0x_is_optional (s : string) :
  has0x s = false ->
  getAddrFromEth ("0x" ++ s)%string = getAddrFromEth s
  /\ getAddrFromPublicKey ("0x" ++ s)%string = getAddrFromPublicKey s
  /\ getAddrFromPrivateKey ("0x" ++ s)%string = getAddrFromPrivateKey s.
Proof.
  intros H. apply strip0x_without_prefix in H.
  unfold getAddrFromEth, getAddrFromPublicKey, getAddrFromPrivateKey.
  rewrite strip0x_prefixed, H. repeat split.
Qed.

(** [revAddressFromMnemonic] never returns a partial record either: a record
    it returns has all five fields, and its [mnemonic] is the phrase
    passed. *)
Theorem revAddressFromMnemonic_complete (phrase : string) (w : RevAddress) :
  DigestLength sha3 -> PublicKeyUncompressed secp256k1 ->
  DerivedKeyValid hdkey ->
  revAddressFromMnemonic phrase = Normal w ->
  complete w = true /\ mnemonic w = Some phrase.
Proof.
  intros Hsha Hec Hvalid. unfold revAddressFromMnemonic, privKeyFromMnemonic.
  destruct (negb _); [discriminate|].
  destruct (privateKey _) as [k|] eqn:E; [|discriminate].
  intros [= <-]. apply Hvalid in E. unfold toString_hex in *.
  assert (A : getAddrFromPrivateKey (encodeBase16 k) <> None).
  { rewrite getAddrFromPrivateKey_valid; try assumption; [discriminate|].
    now rewrite strip0x_encodeBase16. }
  destruct (wallet_fields phrase (encodeBase16 k) _ _ eq_refl eq_refl)
    as (M & _ & _ & _ & C).
  split; [now apply C | exact M].
Qed.

(** ** [parseRevAddress] *)



(** A record from [parseRevAddress] always has a [revAddr], and there is one
    only for text that verifies as an address or whose length, after trimming
    and stripping, is 64, 130 or 40; the caller's text is then in the field
    of that length. *)
Theorem parseRevAddress_result_kinds (text : string) (r : RevAddress) :
  parseRevAddress text = Some r ->
  let val := trim (strip0x text) in
  present (revAddr r) = true
  /\ (verifyRevAddr val = true
      \/ (String.length (strip0x val) = 64 /\ privKey r = Some val)
      \/ (String.length (strip0x val) = 130 /\ pubKey r = Some val)
      \/ (String.length (strip0x val) = 40 /\ ethAddr r = Some val)).
Proof.
  cbv zeta. rewrite parseRevAddress_chain. cbv zeta.
  destruct (verifyRevAddr _); [intros [= <-]; split; [reflexivity | now left]|].
  destruct (getAddrFromPrivateKey _) as [a|] eqn:Epriv.
  { intros [= <-].
    destruct (getAddrFromPrivateKey_fields _ _ Epriv) as (_ & _ & R & _).
    split; [exact R|]. right. left. split; [|reflexivity].
    rewrite getAddrFromPrivateKey_bytes in Epriv.
    destruct (badLength _ 64) eqn:B; [discriminate|].
    now apply badLength_length in B. }
  destruct (getAddrFromPublicKey _) as [a|] eqn:Epub.
  { intros [= <-].
    destruct (getAddrFromPublicKey_fields _ _ Epub) as (_ & _ & _ & R & _).
    split; [exact R|]. right. right. left. split; [|reflexivity].
    rewrite getAddrFromPublicKey_bytes in Epub.
    destruct (badLength _ 130) eqn:B; [discriminate|].
    now apply badLength_length in B. }
  destruct (getAddrFromEth _) as [addr|] eqn:Eeth; [|discriminate].
  intros [= <-]. split; [reflexivity|]. right. right. right.
  split; [|reflexivity].
  rewrite getAddrFromEth_bytes in Eeth.
  destruct (badLength _ 40) eqn:B; [discriminate|].
  now apply badLength_length in B.
Qed.

(** [parseRevAddress] removes ["0x"] only from the very front of the text:
    when the text still starts with ["0x"] after the first one is stripped
    and the white space trimmed, a record it returns holds that text, prefix
    included, in a hex field. *)
Theorem parseRevAddress_keeps_second_0x (text : string) (r : RevAddress) :
  parseRevAddress text = Some r ->
  has0x (trim (strip0x text)) = true ->
  hexFieldsCanonical r = false
  /\ (privKey r = Some (trim (strip0x text))
      \/ pubKey r = Some (trim (strip0x text))
      \/ ethAddr r = Some (trim (strip0x text))).
Proof.
  intros P H.
  assert (V : verifyRevAddr (trim (strip0x text)) = false).
  { unfold verifyRevAddr. now rewrite has0x_undecodable. }
  assert (C : canonicalField (Some (trim (strip0x text))) = false).
  { cbn. unfold canonicalHex. rewrite H. apply andb_false_r. }
  destruct (parseRevAddress_result_kinds _ _ P) as (_ & K). cbv zeta in K.
  unfold hexFieldsCanonical.
  destruct K as [K | [(_ & K) | [(_ & K) | (_ & K)]]].
  - congruence.
  - rewrite K, C. split; [reflexivity | now left].
  - rewrite K, C, andb_false_r. split; [reflexivity | now right; left].
  - rewrite K, C, andb_false_r. split; [reflexivity | now right; right].
Qed.

(** Apart from the address kind, [parseRevAddress] sees the text only through
    its stripped and trimmed form: a ["0x"] in front and white space around
    make no difference to the record. *)
Theorem parseRevAddress_ignores_padding (text1 text2 : string) :
  trim (strip0x text1) = trim (strip0x text2) ->
  verifyRevAddr (trim (strip0x text1)) = false ->
  parseRevAddress text1 = parseRevAddress text2.
Proof.
  intros E V. rewrite !parseRevAddress_chain. cbv zeta.
  rewrite <- E, V. reflexivity.
Qed.

(** ** The wallet functions *)


End FurtherProperties.

(* ------------------------------------------------------------------------- *)
(** * The further properties on concrete inputs *)

(** The address of the private key 1. *)
Lemma verifyRevAddr_accepts_exactly_checksummed_witness :
  verifyRevAddr (blake := blakejs)
                "1111PXDQTDEd4XNuX4YWoB6XeL7ssWvhePGD2XmkENkG5sHfAMW9Q" = true
  <-> exists payload,
      "1111PXDQTDEd4XNuX4YWoB6XeL7ssWvhePGD2XmkENkG5sHfAMW9Q"
      = bs58_encode
          (payload ++ firstn 4 (blake2b (BlakeJs := blakejs) payload None 32)).
Proof.
  exact (verifyRevAddr_accepts_exactly_checksummed
           (blake := blakejs) _ blakejs_checksumLength).
Defined.

(** Three characters decode to three bytes. *)
Lemma short_text_rejected_witness :
  decodeBase58safe "abc" = Some [x01; xb9; x7b] /\
  verifyRevAddr (blake := blakejs) "abc" = false.
Proof.
  split; [vm_compute; reflexivity|].
  apply (short_text_rejected (blake := blakejs) "abc" [x01; xb9; x7b]).
  - exact blakejs_checksumLength.
  - vm_compute; reflexivity.
  - cbn; lia.
Defined.

Lemma getAddrFromEth_address_shape_witness :
  let addr := "1111dmyT6TSbyVRGx98srm5dbhQxzduoTAK3DNPSXM4swUBu9QgiV" in
  verifyRevAddr (blake := blakejs) addr = true
  /\ (exists rest, addr = ("1111" ++ rest)%string)
  /\ (exists revBytes,
        decodeBase58safe addr = Some revBytes /\ List.length revBytes = 40).
Proof.
  cbv zeta.
  apply (getAddrFromEth_address_shape
           (sha3 := jsSha3) (blake := blakejs)
           "0000000000000000000000000000000000000000").
  - exact jsSha3_digestLength.
  - exact blakejs_checksumLength.
  - vm_compute; reflexivity.
Defined.

(** With and without the prefix: the same address, hence the same digest. *)
Lemma equal_addresses_equal_digests_witness :
  keccak256_array (JsSha3 := jsSha3)
    (decodeBase16 (strip0x "0x7e5f4552091a69125d5dfcb7b8c2659029395bdf"))
  = keccak256_array (JsSha3 := jsSha3)
      (decodeBase16 (strip0x "7e5f4552091a69125d5dfcb7b8c2659029395bdf")).
Proof.
  apply (equal_addresses_equal_digests
           (sha3 := jsSha3) (blake := blakejs) _ _
           "1111PXDQTDEd4XNuX4YWoB6XeL7ssWvhePGD2XmkENkG5sHfAMW9Q").
  - exact jsSha3_digestLength.
  - vm_compute; reflexivity.
  - vm_compute; reflexivity.
Defined.

(** The public key of the private key 1. *)
Definition publicKeyOfOne : string :=
  "0479be667ef9dcbbac55a06295ce870b07029bfcdb2dce28d959f2815b16f81798483ada7726a3c4655da4fbfc0e1108a8fd17b448a68554199c47d08ffb10d4b8".

Lemma getAddrFromPublicKey_derives_both_witness :
  let eth := "7e5f4552091a69125d5dfcb7b8c2659029395bdf" in
  exists addr,
    getAddrFromPublicKey (sha3 := jsSha3) (blake := blakejs) publicKeyOfOne
    = Some {| revAddr := Some addr; ethAddr := Some eth; pubKey := None;
              privKey := None; mnemonic := None |}
    /\ String.length eth = 40 /\ lowerHex eth = true
    /\ getAddrFromEth (sha3 := jsSha3) (blake := blakejs) eth = Some addr
    /\ verifyRevAddr (blake := blakejs) addr = true.
Proof.
  cbv zeta.
  assert (E : encodeBase16
                (skipn 12 (Keccak.keccak256
                             (skipn 1 (decodeBase16 (strip0x publicKeyOfOne)))))
              = "7e5f4552091a69125d5dfcb7b8c2659029395bdf")
    by (vm_compute; reflexivity).
  rewrite <- E.
  exact (getAddrFromPublicKey_derives_both
           (sha3 := jsSha3) (blake := blakejs) publicKeyOfOne
           jsSha3_digestLength blakejs_checksumLength eq_refl eq_refl).
Defined.

Lemma private_key_record_consistent_witness :
  exists pub eth addr,
    Sample.wallet
    = {| revAddr := Some addr; ethAddr := Some eth; pubKey := Some pub;
         privKey := Some "0000000000000000000000000000000000000000000000000000000000000001";
         mnemonic := Some "01020000000000000000000000000000" |}
    /\ getAddrFromPublicKey (sha3 := jsSha3) (blake := blakejs) pub
       = Some {| revAddr := Some addr; ethAddr := Some eth; pubKey := None;
                 privKey := None; mnemonic := None |}
    /\ getAddrFromEth (sha3 := jsSha3) (blake := blakejs) eth = Some addr.
Proof.
  destruct (private_key_record_consistent
              (sha3 := jsSha3) (blake := blakejs) (secp256k1 := elliptic)
              "0000000000000000000000000000000000000000000000000000000000000001"
              {| revAddr := revAddr Sample.wallet;
                 ethAddr := ethAddr Sample.wallet;
                 pubKey := pubKey Sample.wallet;
                 privKey := None; mnemonic := None |})
    as (pub & eth & addr & E & P & A); [vm_compute; reflexivity|].
  injection E as <- <- <-. do 3 eexists.
  split; [reflexivity|]. split; [exact P | exact A].
Defined.

Lemma leading_0x_is_optional_witness :
  getAddrFromEth (sha3 := jsSha3) (blake := blakejs)
                 "0x7e5f4552091a69125d5dfcb7b8c2659029395bdf"
  = getAddrFromEth (sha3 := jsSha3) (blake := blakejs)
                   "7e5f4552091a69125d5dfcb7b8c2659029395bdf".
Proof.
  apply (leading_0x_is_optional
           (sha3 := jsSha3) (blake := blakejs) (secp256k1 := elliptic)
           "7e5f4552091a69125d5dfcb7b8c2659029395bdf").
  reflexivity.
Defined.

Lemma revAddressFromMnemonic_complete_witness :
  complete Sample.wallet = true
  /\ mnemonic Sample.wallet = Some "01020000000000000000000000000000".
Proof.
  apply (revAddressFromMnemonic_complete
           (sha3 := jsSha3) (blake := blakejs) (secp256k1 := elliptic)
           (bip39 := Sample.bip39) (hdkey := Sample.hdkey)).
  - exact jsSha3_digestLength.
  - exact elliptic_uncompressed.
  - exact sample_keyValid.
  - vm_compute; reflexivity.
Defined.



(** An ETH address after two blanks: the trimmed text still starts with
    ["0x"]. *)
Definition paddedEth : string := "  0x7e5f4552091a69125d5dfcb7b8c2659029395bdf".

Definition paddedEthRecord : RevAddress :=
  {| revAddr := Some "1111PXDQTDEd4XNuX4YWoB6XeL7ssWvhePGD2XmkENkG5sHfAMW9Q";
     ethAddr := Some "0x7e5f4552091a69125d5dfcb7b8c2659029395bdf";
     pubKey := None; privKey := None; mnemonic := None |}.

Lemma parseRevAddress_result_kinds_witness :
  parseRevAddress (sha3 := jsSha3) (blake := blakejs) (secp256k1 := elliptic)
                  paddedEth = Some paddedEthRecord
  /\ present (revAddr paddedEthRecord) = true.
Proof.
  assert (P : parseRevAddress (sha3 := jsSha3) (blake := blakejs)
                (secp256k1 := elliptic) paddedEth = Some paddedEthRecord)
    by (vm_compute; reflexivity).
  split; [exact P|].
  exact (proj1 (parseRevAddress_result_kinds
                  (sha3 := jsSha3) (blake := blakejs) (secp256k1 := elliptic)
                  paddedEth paddedEthRecord P)).
Defined.

Lemma parseRevAddress_keeps_second_0x_witness :
  parseRevAddress (sha3 := jsSha3) (blake := blakejs) (secp256k1 := elliptic)
                  paddedEth = Some paddedEthRecord
  /\ hexFieldsCanonical paddedEthRecord = false.
Proof.
  assert (P : parseRevAddress (sha3 := jsSha3) (blake := blakejs)
                (secp256k1 := elliptic) paddedEth = Some paddedEthRecord)
    by (vm_compute; reflexivity).
  split; [exact P|].
  apply (parseRevAddress_keeps_second_0x
           (sha3 := jsSha3) (blake := blakejs) (secp256k1 := elliptic)
           paddedEth paddedEthRecord P).
  vm_compute; reflexivity.
Defined.

Lemma parseRevAddress_ignores_padding_witness :
  parseRevAddress (sha3 := jsSha3) (blake := blakejs) (secp256k1 := elliptic)
                  "0x7e5f4552091a69125d5dfcb7b8c2659029395bdf  "
  = parseRevAddress (sha3 := jsSha3) (blake := blakejs)
                    (secp256k1 := elliptic)
                    "7e5f4552091a69125d5dfcb7b8c2659029395bdf".
Proof.
  apply (parseRevAddress_ignores_padding
           (sha3 := jsSha3) (blake := blakejs) (secp256k1 := elliptic));
    vm_compute; reflexivity.
Defined.

